(** * ws4py: the stream assembler and the threaded connection driver

    A shallow embedding of [ws4py/streaming.py] (class [Stream]) and of
    [ws4py/server/handler/threadedhandler.py] (class [WebSocketHandler]),
    with the properties of the engine stated and proved over it.

    The modules [ws4py.framing], [ws4py.messaging] and [ws4py.exc] are
    imported by the two files but are not part of the sources at hand; what
    the two files use of them is modelled below from the specification and
    marked as such. *)

From Stdlib Require Import ZArith NArith List Bool Lia.
From Stdlib Require Import Strings.Byte.
Import ListNotations.

Local Open Scope Z_scope.

(** ** Python values *)

(** A Python 2 byte string ([str] or [bytearray]). *)
Definition bytes := list byte.

(** A Python 2 [unicode] string, as its code points. *)
Definition ustring := list N.

(** Truth value of a Python sequence: empty is false. *)
Definition truthy {A : Type} (l : list A) : bool :=
  match l with [] => false | _ :: _ => true end.

(** The two codecs that [Stream.receiver] calls on a frame body:
    [bytes.decode("utf-8")], which raises [UnicodeDecodeError] on a malformed
    body ([None] here), and [bytes.decode("utf-8", "replace")], which never
    raises. They are builtins of the interpreter; the engine is stated over
    any implementation of the pair. *)
Class Utf8Codec := {
  decode_utf8 : bytes -> option ustring;
  decode_utf8_replace : bytes -> ustring
}.

(** ** A codec to run the model with: UTF-8 as in RFC 3629 *)

Module Utf8.

Local Open Scope N_scope.

Definition is_cont (b : N) : bool := (0x80 <=? b) && (b <=? 0xBF).

Definition between (lo hi b : N) : bool := (lo <=? b) && (b <=? hi).

(** Decodes the code point at the head of [l]; [None] when the head is not
    a well-formed sequence. *)
Definition step (l : list N) : option (N * list N) :=
  match l with
  | [] => None
  | b0 :: r0 =>
    if b0 <? 0x80 then Some (b0, r0)
    else if between 0xC2 0xDF b0 then
      match r0 with
      | b1 :: r1 =>
        if is_cont b1 then Some ((b0 - 0xC0) * 64 + (b1 - 0x80), r1) else None
      | _ => None
      end
    else if between 0xE0 0xEF b0 then
      match r0 with
      | b1 :: b2 :: r2 =>
        let lo := if b0 =? 0xE0 then 0xA0 else 0x80 in
        let hi := if b0 =? 0xED then 0x9F else 0xBF in
        if between lo hi b1 && is_cont b2
        then Some ((b0 - 0xE0) * 4096 + (b1 - 0x80) * 64 + (b2 - 0x80), r2)
        else None
      | _ => None
      end
    else if between 0xF0 0xF4 b0 then
      match r0 with
      | b1 :: b2 :: b3 :: r3 =>
        let lo := if b0 =? 0xF0 then 0x90 else 0x80 in
        let hi := if b0 =? 0xF4 then 0x8F else 0xBF in
        if between lo hi b1 && is_cont b2 && is_cont b3
        then Some ((b0 - 0xF0) * 262144 + (b1 - 0x80) * 4096
                   + (b2 - 0x80) * 64 + (b3 - 0x80), r3)
        else None
      | _ => None
      end
    else None
  end.

Fixpoint strict_from (fuel : nat) (l : list N) : option ustring :=
  match l with
  | [] => Some []
  | _ :: _ =>
    match fuel with
    | O => None
    | S fuel' =>
      match step l with
      | Some (c, r) => option_map (cons c) (strict_from fuel' r)
      | None => None
      end
    end
  end.

(** The length of what one U+FFFD stands for when the head of [l] is not a
    well-formed sequence: the longest run of bytes that begins one (E2 82
    at the end of the input is such a run), or the one offending byte. *)
Definition malformed (l : list N) : nat :=
  match l with
  | [] => 0%nat
  | b0 :: r0 =>
    if between 0xE0 0xEF b0 then
      let lo := if b0 =? 0xE0 then 0xA0 else 0x80 in
      let hi := if b0 =? 0xED then 0x9F else 0xBF in
      match r0 with
      | b1 :: _ => if between lo hi b1 then 2%nat else 1%nat
      | [] => 1%nat
      end
    else if between 0xF0 0xF4 b0 then
      let lo := if b0 =? 0xF0 then 0x90 else 0x80 in
      let hi := if b0 =? 0xF4 then 0x8F else 0xBF in
      match r0 with
      | b1 :: r1 =>
        if between lo hi b1 then
          match r1 with
          | b2 :: _ => if is_cont b2 then 3%nat else 2%nat
          | [] => 2%nat
          end
        else 1%nat
      | [] => 1%nat
      end
    else 1%nat
  end.

(** A malformed sequence is replaced by one U+FFFD and decoding resumes
    after it. *)
Fixpoint replace_from (fuel : nat) (l : list N) : ustring :=
  match l, fuel with
  | [], _ => []
  | _ :: _, O => []
  | _ :: _, S fuel' =>
    match step l with
    | Some (c, r) => c :: replace_from fuel' r
    | None => 0xFFFD :: replace_from fuel' (skipn (malformed l) l)
    end
  end.

Definition strict (b : bytes) : option ustring :=
  let l := map Byte.to_N b in strict_from (length l) l.

Definition replace (b : bytes) : ustring :=
  let l := map Byte.to_N b in replace_from (length l) l.

End Utf8.

#[global] Instance rfc3629 : Utf8Codec :=
  {| decode_utf8 := Utf8.strict; decode_utf8_replace := Utf8.replace |}.

(** ** ws4py.framing (absent): the decoded frame *)

(** Modelled from the spec: the opcode constants of the absent
    [ws4py.framing], with the RFC 6455 values the wire examples of the
    specification use ([0x81] a final text frame, [0x80] a final
    continuation frame). *)
Definition OPCODE_CONTINUATION : Z := 0x0.
Definition OPCODE_TEXT : Z := 0x1.
Definition OPCODE_BINARY : Z := 0x2.
Definition OPCODE_CLOSE : Z := 0x8.
Definition OPCODE_PING : Z := 0x9.
Definition OPCODE_PONG : Z := 0xA.

(** Modelled from the spec: the fields of a [framing.Frame] that
    [Stream.receiver] reads once the frame decoder has stopped. A [body] of
    [None] and an empty body are the same to the receiver ([frame.body or
    '']) and are both the empty list here. *)
Record Frame := mkFrame {
  fin : Z;
  opcode : Z;
  masking_key : option bytes;
  body : bytes
}.

Definition byte_xor (a b : byte) : byte :=
  match Byte.of_N (N.lxor (Byte.to_N a) (Byte.to_N b)) with
  | Some c => c
  | None => x00
  end.

Fixpoint unmask_from (i : nat) (key data : bytes) : bytes :=
  match data with
  | [] => []
  | b :: r => byte_xor b (nth (i mod 4) key x00) :: unmask_from (S i) key r
  end.

(** Modelled from the spec: [Frame.unmask] of the absent [ws4py.framing],
    byte [i] of the body XOR-ed with byte [i mod 4] of the masking key. *)
Definition unmask (key data : bytes) : bytes := unmask_from 0 key data.

(** Modelled from the spec: a fresh frame decoder first asks for two
    bytes. *)
Definition FIRST_REQUEST : Z := 2.

(** The exceptions that occur: those of [ws4py.exc] that the receiver
    names (modelled from the spec: the failures of the absent frame
    decoder), the interpreter's [StopIteration] and [AttributeError], and
    [socket.error] with its subclasses. *)
Inductive Exn :=
| ProtocolException
| FrameTooLargeException
| StreamClosed
| InvalidBytesError
| StopIteration
| AttributeError
| SocketError.

(** What the frame decoder does with the bytes of one [parser.send]: it
    asks for [n] more bytes, or it stops with the frame complete, or it
    raises, leaving the frame object with the fields read so far. *)
Inductive Decode :=
| NeedBytes (n : Z)
| Ready (f : Frame)
| Failed (e : Exn) (f : Frame).

(** ** ws4py.messaging (absent): messages *)

(** Modelled from the spec: a data [Message] of the absent
    [ws4py.messaging], its kind, its accumulated payload and its
    [completed] flag. A text message holds what [receiver] hands it, the
    decoded text; a binary message holds the bytes. *)
Inductive Message :=
| TextMessage (text : ustring) (completed : bool)
| BinaryMessage (data : bytes) (completed : bool).

Definition message_completed (m : Message) : bool :=
  match m with
  | TextMessage _ c => c
  | BinaryMessage _ c => c
  end.

(** [m.completed = c] *)
Definition set_completed (c : bool) (m : Message) : Message :=
  match m with
  | TextMessage t _ => TextMessage t c
  | BinaryMessage d _ => BinaryMessage d c
  end.

(** [m.opcode == OPCODE_TEXT] *)
Definition is_text (m : Message) : bool :=
  match m with
  | TextMessage _ _ => true
  | BinaryMessage _ _ => false
  end.

(** Modelled from the spec: [CloseControlMessage(code=1000, reason='')] of
    the absent [ws4py.messaging]; 1000 is the code that [Stream.close] and
    [WebSocketHandler.close] default to as well. *)
Record CloseControlMessage := mkClose {
  code : Z;
  reason : ustring
}.

Definition DEFAULT_CLOSE_CODE : Z := 1000.

Definition close_with_code (c : Z) : CloseControlMessage :=
  {| code := c; reason := [] |}.

Definition close_with_reason (r : ustring) : CloseControlMessage :=
  {| code := DEFAULT_CLOSE_CODE; reason := r |}.

Record PingControlMessage := mkPing { ping_data : bytes }.
Record PongControlMessage := mkPong { pong_data : bytes }.

(** Modelled from the spec: the encoder of the absent modules,
    [message.single()], gives the wire bytes of one frame. The bytes are
    kept symbolic: which control message they encode. *)
Inductive Wire :=
| CloseFrame (c : Z) (r : ustring)
| PingFrame (d : bytes)
| PongFrame (d : bytes).

(** ** ws4py/streaming.py: class Stream *)

Module Stream.

(** Where the [receiver] generator is suspended between two calls of
    [parser.send]: at the read of the frame loop ([yield
    frame.parser.next()]), at the alignment [yield 0] that follows a frame
    with an empty payload, or nowhere any more once it has returned or
    raised. *)
Inductive Point :=
| AtRead
| AtAlign
| Finished.

(** The attributes [Stream.__init__] creates. *)
Record t := mk {
  message : option Message;
  pings : list PingControlMessage;
  pongs : list PongControlMessage;
  closing : option CloseControlMessage;
  errors : list CloseControlMessage;
  parser : Point
}.

Definition init : t :=
  {| message := None; pings := []; pongs := []; closing := None;
     errors := []; parser := AtRead |}.

Definition set_message (m : option Message) (s : t) : t :=
  {| message := m; pings := pings s; pongs := pongs s;
     closing := closing s; errors := errors s; parser := parser s |}.

Definition set_pings (l : list PingControlMessage) (s : t) : t :=
  {| message := message s; pings := l; pongs := pongs s;
     closing := closing s; errors := errors s; parser := parser s |}.

Definition set_pongs (l : list PongControlMessage) (s : t) : t :=
  {| message := message s; pings := pings s; pongs := l;
     closing := closing s; errors := errors s; parser := parser s |}.

Definition set_closing (c : option CloseControlMessage) (s : t) : t :=
  {| message := message s; pings := pings s; pongs := pongs s;
     closing := c; errors := errors s; parser := parser s |}.

Definition set_errors (l : list CloseControlMessage) (s : t) : t :=
  {| message := message s; pings := pings s; pongs := pongs s;
     closing := closing s; errors := l; parser := parser s |}.

Definition set_parser (p : Point) (s : t) : t :=
  {| message := message s; pings := pings s; pongs := pongs s;
     closing := closing s; errors := errors s; parser := p |}.

(** [self.errors.append(CloseControlMessage(code=c))] *)
Definition add_error (c : Z) (s : t) : t :=
  set_errors (errors s ++ [close_with_code c]) s.

(** The property [has_message]. *)
Definition has_message (s : t) : bool :=
  match message s with
  | Some m => message_completed m
  | None => false
  end.

(** [close], [ping] and [pong] build a control message and hand back its
    encoding, [CloseControlMessage(code=code, reason=reason).single()] and
    the like: bytes, not a message. *)
Definition close (c : Z) (r : ustring) : Wire := CloseFrame c r.
Definition ping (d : bytes) : Wire := PingFrame d.
Definition pong (d : bytes) : Wire := PongFrame d.

(** The payload the receiver works on:
    [bytes = frame.body or '']; unmasked [if frame.masking_key and bytes]. *)
Definition payload (f : Frame) : bytes :=
  match masking_key f with
  | Some key => if truthy key && truthy (body f) then unmask key (body f)
                else body f
  | None => body f
  end.

(** The guard of the text branch,
    [self.message and not self.message.completed].
    Modelled from the spec: a message object counts as true (the branch is
    taken "if an incomplete message already exists"). *)
Definition incomplete (s : t) : bool :=
  match message s with
  | Some m => negb (message_completed m)
  | None => false
  end.

(** How the body of the [except StopIteration] handler is left: through one
    of its [break] statements, or by running to its end, where the
    alignment test [if not bytes: yield 0] stands. *)
Inductive Exit :=
| Break (s : t)
| Through (s : t).

Definition stream_of (x : Exit) : t :=
  match x with Break s => s | Through s => s end.

Section Receiver.

Context {codec : Utf8Codec}.

(** The dispatch on the opcode of a frame the decoder has finished
    (the [except StopIteration] handler of [receiver], up to the alignment
    test). *)
Definition dispatch (f : Frame) (s : t) : Exit :=
  let bytes := payload f in
  if opcode f =? OPCODE_TEXT then
    if incomplete s then Break (add_error 1002 s)
    else
      match decode_utf8 bytes with
      | Some text => Through (set_message (Some (TextMessage text (fin f =? 1))) s)
      | None => Break (add_error 1007 s)
      end
  else if opcode f =? OPCODE_BINARY then
    Through (set_message (Some (BinaryMessage bytes (fin f =? 1))) s)
  else if opcode f =? OPCODE_CONTINUATION then
    match message s with
    | None => Break (add_error 1002 s)
    | Some m =>
      (* [m] is the object [self.message] refers to: the assignment to
         [m.completed] shows in the stream at once *)
      match set_completed (fin f =? 1) m with
      | TextMessage text c =>
        let s1 := set_message (Some (TextMessage text c)) s in
        match decode_utf8 bytes with
        | Some chunk => Through (set_message (Some (TextMessage (text ++ chunk) c)) s1)
        | None => Break (add_error 1007 s1)
        end
      | BinaryMessage data c =>
        Through (set_message (Some (BinaryMessage (data ++ bytes) c)) s)
      end
    end
  else if opcode f =? OPCODE_CLOSE then
    Through (set_closing (Some (close_with_reason (decode_utf8_replace bytes))) s)
  else if opcode f =? OPCODE_PING then
    Through (set_pings (pings s ++ [mkPing bytes]) s)
  else if opcode f =? OPCODE_PONG then
    Through (set_pongs (pongs s ++ [mkPong bytes]) s)
  else
    Through (add_error 1003 s).

(** After the dispatch: [if not bytes: yield 0], then [break], a new
    [Frame] and the first request of its decoder. The result is the value
    the generator yields and the stream it is suspended with. *)
Definition finish (f : Frame) (x : Exit) : Z * t :=
  match x with
  | Break s => (FIRST_REQUEST, set_parser AtRead s)
  | Through s =>
    if truthy (payload f) then (FIRST_REQUEST, set_parser AtRead s)
    else (0, set_parser AtAlign s)
  end.

(** One [parser.send(bytes)] on the generator [receiver]: [d] is what the
    frame decoder makes of the bytes. The result is the yielded size, or
    the exception that leaves the generator.

    A [ProtocolException] or a [FrameTooLargeException] is caught inside the
    frame loop, which then goes round: [frame.parser.next()] on the decoder
    that has just raised gives [StopIteration], so the frame is dispatched
    as it stands. [StreamClosed] ends the outer loop and the generator
    returns; any other exception is not caught. *)
Definition receiver (d : Decode) (s : t) : (Z + Exn) * t :=
  match parser s with
  | Finished => (inr StopIteration, s)
  | AtAlign => (inl FIRST_REQUEST, set_parser AtRead s)
  | AtRead =>
    match d with
    | NeedBytes n => (inl n, s)
    | Ready f | Failed StopIteration f =>
      let (n, s') := finish f (dispatch f s) in (inl n, s')
    | Failed ProtocolException f =>
      let (n, s') := finish f (dispatch f (add_error 1002 s)) in (inl n, s')
    | Failed FrameTooLargeException f =>
      let (n, s') := finish f (dispatch f (add_error 1004 s)) in (inl n, s')
    | Failed StreamClosed _ => (inr StopIteration, set_parser Finished s)
    | Failed e _ => (inr e, set_parser Finished s)
    end
  end.

(** The stream after a run of completed frames, one [parser.send] each. *)
Definition feed (fs : list Frame) (s : t) : t :=
  fold_left (fun s f => stream_of (dispatch f s)) fs s.

End Receiver.

End Stream.

(** ** ws4py/server/handler/threadedhandler.py: class WebSocketHandler *)

Module WebSocketHandler.

(** The connection [self.sock], seen from the handler: what [sendall] has
    been given, in order, and whether [shutdown] and [close] have been
    carried out. [shutdown_fails] is the environment's part: whether
    [sock.shutdown] raises (as it does on a connection the peer has already
    dropped). *)
Record Socket := mkSocket {
  sent : list Wire;
  shutdown_fails : bool;
  is_shutdown : bool;
  is_closed : bool
}.

(** The calls made to the methods an application overrides. *)
Inductive Callback :=
| ReceivedMessage (m : Message)
| Ponged (p : PongControlMessage)
| Closed (c : Z) (r : option ustring).

Definition is_closed_call (c : Callback) : bool :=
  match c with Closed _ _ => true | _ => false end.

(** The attributes [WebSocketHandler.__init__] creates, and the trace of
    callbacks. *)
Record t := mk {
  stream : Stream.t;
  sock : Socket;
  client_terminated : bool;
  server_terminated : bool;
  calls : list Callback
}.

Definition init (fails : bool) : t :=
  {| stream := Stream.init;
     sock := {| sent := []; shutdown_fails := fails;
                is_shutdown := false; is_closed := false |};
     client_terminated := false;
     server_terminated := false;
     calls := [] |}.

Definition set_stream (s : Stream.t) (h : t) : t :=
  {| stream := s; sock := sock h; client_terminated := client_terminated h;
     server_terminated := server_terminated h; calls := calls h |}.

Definition set_sock (k : Socket) (h : t) : t :=
  {| stream := stream h; sock := k; client_terminated := client_terminated h;
     server_terminated := server_terminated h; calls := calls h |}.

Definition set_client_terminated (b : bool) (h : t) : t :=
  {| stream := stream h; sock := sock h; client_terminated := b;
     server_terminated := server_terminated h; calls := calls h |}.

Definition set_server_terminated (b : bool) (h : t) : t :=
  {| stream := stream h; sock := sock h; client_terminated := client_terminated h;
     server_terminated := b; calls := calls h |}.

Definition set_calls (l : list Callback) (h : t) : t :=
  {| stream := stream h; sock := sock h; client_terminated := client_terminated h;
     server_terminated := server_terminated h; calls := l |}.

(** *** Methods as state transformers that may raise *)

Definition M (A : Type) : Type := t -> (A + Exn) * t.

Definition ret {A : Type} (a : A) : M A := fun h => (inl a, h).

Definition raise {A : Type} (e : Exn) : M A := fun h => (inr e, h).

Definition bind {A B : Type} (c : M A) (k : A -> M B) : M B :=
  fun h =>
    match c h with
    | (inl a, h') => k a h'
    | (inr e, h') => (inr e, h')
    end.

Definition get : M t := fun h => (inl h, h).

Definition modify (f : t -> t) : M unit := fun h => (inl tt, f h).

Notation "x <- c ;; k" := (bind c (fun x => k))
  (at level 61, c at next level, right associativity).
Notation "c ;; k" := (bind c (fun _ => k))
  (at level 61, right associativity).

(** [for x in l: body(x)] *)
Fixpoint for_each {A : Type} (l : list A) (body : A -> M unit) : M unit :=
  match l with
  | [] => ret tt
  | x :: r => body x ;; for_each r body
  end.

(** The property [terminated]. *)
Definition terminated (h : t) : bool :=
  client_terminated h && server_terminated h.

(** The handler once [ws] have gone out through [sendall], and once the
    callbacks [cs] have been made. *)
Definition sending (ws : list Wire) (h : t) : t :=
  set_sock {| sent := sent (sock h) ++ ws;
              shutdown_fails := shutdown_fails (sock h);
              is_shutdown := is_shutdown (sock h);
              is_closed := is_closed (sock h) |} h.

Definition calling (cs : list Callback) (h : t) : t :=
  set_calls (calls h ++ cs) h.

(** [self.sock.sendall(bytes)], on a connection that takes the bytes. *)
Definition write_to_connection (w : Wire) : M unit :=
  modify (sending [w]).

(** The method call [.single()] on encoded bytes. [close] applies it to
    what [self.stream.close(...)] returns, and that is already the result
    of [.single()] on the control message: a byte string, the kind of
    value [send] passes to [sock.sendall] as it is. A byte string has no
    attribute [single], so the call raises [AttributeError]. *)
Definition bytes_single (w : Wire) : M Wire := raise AttributeError.

(** [close(code, reason)], with [single] for the method call [.single()]
    that line 65 makes on the value of [self.stream.close(code=code,
    reason=reason)]: the frame composed from the two arguments is what
    [single] is handed, and what [single] returns is written. *)
Definition close_with (single : Wire -> M Wire) (c : Z) (r : ustring) : M unit :=
  h <- get ;;
  if negb (server_terminated h) then
    modify (set_server_terminated true) ;;
    frame <- single (Stream.close c r) ;;
    write_to_connection frame
  else ret tt.

(** [close(code, reason)] as the source has it: the value is a byte
    string, and [.single()] on it raises. *)
Definition close : Z -> ustring -> M unit := close_with bytes_single.

Definition callback (c : Callback) : M unit :=
  modify (calling [c]).

(** [closed(code, reason=None)]; the body of the base class is the bare
    expression [self.write_to_connection], which calls nothing. *)
Definition closed (c : Z) (r : option ustring) : M unit :=
  callback (Closed c r).

(** [ponged(pong)] and [received_message(m)]: [pass] in the base class. *)
Definition ponged (p : PongControlMessage) : M unit :=
  callback (Ponged p).

Definition received_message (m : Message) : M unit :=
  callback (ReceivedMessage m).

(** [close_connection]: [shutdown] then [close] inside [try], with
    [except: pass]; when [shutdown] raises, [close] is skipped. *)
Definition close_connection : M unit :=
  modify (fun h =>
    if shutdown_fails (sock h) then h
    else set_sock {| sent := sent (sock h);
                     shutdown_fails := shutdown_fails (sock h);
                     is_shutdown := true;
                     is_closed := true |} h).

(** [list.remove(x)]: drops the first element equal to [x]. *)
Definition close_eqb (a b : CloseControlMessage) : bool :=
  (code a =? code b) && (if list_eq_dec N.eq_dec (reason a) (reason b) then true else false).

Fixpoint remove (x : CloseControlMessage) (l : list CloseControlMessage) :
  list CloseControlMessage :=
  match l with
  | [] => []
  | y :: r => if close_eqb x y then r else y :: remove x r
  end.

Definition modify_stream (f : Stream.t -> Stream.t) : M unit :=
  modify (fun h => set_stream (f (stream h)) h).

(** How one turn of the [while] loop of [_receive] ends: it goes on to the
    next read with a value for [next_size], or it leaves through
    [break]. *)
Inductive Ctl :=
| Next (next_size : Z)
| Leave.

(** The first part of the inspection, the [if]/[elif] chain on
    [s.closing], [s.errors] and [s.has_message], with [single] as in
    [close_with]. *)
Definition react_with (single : Wire -> M Wire) (next_size : Z) : M Ctl :=
  h <- get ;;
  let s := stream h in
  match Stream.closing s with
  | Some c =>
    if negb (server_terminated h) then
      close_with single (code c) (reason c) ;;
      ret (Next 2)
    else
      modify (set_client_terminated true) ;;
      ret Leave
  | None =>
    if truthy (Stream.errors s) then
      for_each (Stream.errors s) (fun error =>
        close_with single (code error) (reason error) ;;
        modify_stream (fun s => Stream.set_errors (remove error (Stream.errors s)) s)) ;;
      ret Leave
    else if Stream.has_message s then
      match Stream.message s with
      | Some m => received_message m
      | None => ret tt
      end ;;
      modify_stream (Stream.set_message None) ;;
      ret (Next next_size)
    else ret (Next next_size)
  end.

(** The chain as the source has it, its calls of [close] being those of
    the method above. *)
Definition react : Z -> M Ctl := react_with bytes_single.

(** The second part: the pings are answered and the pongs reported. *)
Definition drain : M unit :=
  h <- get ;;
  for_each (Stream.pings (stream h)) (fun ping =>
    write_to_connection (Stream.pong (ping_data ping))) ;;
  modify_stream (Stream.set_pings []) ;;
  h <- get ;;
  for_each (Stream.pongs (stream h)) (fun pong => ponged pong) ;;
  modify_stream (Stream.set_pongs []).

(** The handler after [drain]: one pong frame per queued ping and one
    [ponged] per queued pong, in queue order, and the two queues empty. *)
Definition drained (h : t) : t :=
  let h1 := sending (map (fun p => PongFrame (ping_data p)) (Stream.pings (stream h))) h in
  let h2 := set_stream (Stream.set_pings [] (stream h1)) h1 in
  let h3 := calling (map Ponged (Stream.pongs (stream h2))) h2 in
  set_stream (Stream.set_pongs [] (stream h3)) h3.

(** The handler after the [elif s.has_message] branch: a complete message
    is handed to [received_message] and the slot is cleared. *)
Definition surfaced (h : t) : t :=
  if Stream.has_message (stream h) then
    let h1 := match Stream.message (stream h) with
              | Some m => calling [ReceivedMessage m] h
              | None => h
              end in
    set_stream (Stream.set_message None (stream h1)) h1
  else h.

(** The body of the loop of [_receive] from the line after
    [next_size = s.parser.send(bytes)] to its end. *)
Definition inspect (next_size : Z) : M Ctl :=
  r <- react next_size ;;
  match r with
  | Leave => ret Leave
  | Next n => drain ;; ret (Next n)
  end.

(** What one [read_from_connection] gives the loop: bytes, together with
    what the frame decoder makes of them, or an exception of the socket. *)
Inductive Recv :=
| Data (b : bytes) (d : Decode)
| RecvError.

Section Driver.

Context {codec : Utf8Codec}.

(** [s.parser.send(bytes)], with [d] what the frame decoder makes of the
    bytes. *)
Definition parser_send (d : Decode) : M Z :=
  fun h =>
    match Stream.receiver d (stream h) with
    | (inl n, s') => (inl n, set_stream s' h)
    | (inr e, s') => (inr e, set_stream s' h)
    end.

(** One turn of the [while] loop: the read, the test
    [if not bytes and next_size > 0: break], the [send] to the parser and
    the inspection of the stream. *)
Definition turn (r : Recv) (next_size : Z) : M Ctl :=
  match r with
  | RecvError => raise SocketError
  | Data b d =>
    if negb (truthy b) && (next_size >? 0) then ret Leave
    else
      n <- parser_send d ;;
      inspect n
  end.

(** The [while not self.terminated] loop of [_receive], run against a
    script of reads. [None]: the script is used up and the thread is still
    blocked in [recv]. Otherwise the way the [try] block is left, normally
    or by an exception (which the bare [except] then swallows). *)
Fixpoint loop (script : list Recv) (next_size : Z) (h : t) : option ((unit + Exn) * t) :=
  if terminated h then Some (inl tt, h)
  else
    match script with
    | [] => None
    | r :: rest =>
      match turn r next_size h with
      | (inr e, h') => Some (inr e, h')
      | (inl Leave, h') => Some (inl tt, h')
      | (inl (Next n), h') => loop rest n h'
      end
    end.

(** The handlers the loop goes round with: a fresh one, one on which the
    application has called [close] in the meantime, and one that a turn of
    the loop has left to go on with. *)
Inductive Running : t -> Prop :=
| Running_init (fails : bool) : Running (init fails)
| Running_close (c : Z) (r : ustring) (h : t) :
    Running h -> Running (snd (close c r h))
| Running_turn (r : Recv) (n m : Z) (h h' : t) :
    Running h -> turn r n h = (inl (Next m), h') -> Running h'.

(** What follows the loop: the [finally] that sets both flags, then
    [closed(1006)] under [if not self.stream.closing], then
    [close_connection] in a [finally] of its own.
    Modelled from the spec: a recorded close message counts as true (the
    callback is for the case that "no close frame was ever observed"). *)
Definition teardown : M unit :=
  modify (fun h => set_client_terminated true (set_server_terminated true h)) ;;
  h <- get ;;
  match Stream.closing (stream h) with
  | None => closed 1006 None
  | Some _ => ret tt
  end ;;
  close_connection.

(** [_receive], the target of the handler's thread. *)
Definition _receive (script : list Recv) (h : t) : option t :=
  match loop script 2 h with
  | None => None
  | Some (_, h') => Some (snd (teardown h'))
  end.

End Driver.

End WebSocketHandler.

(** ** Fragmented messages and sample inputs *)

(** A continuation frame that is not the last of its message, and one that
    is. *)
Definition nonfinal_continuation (f : Frame) : Prop :=
  opcode f = OPCODE_CONTINUATION /\ fin f = 0.

Definition final_continuation (f : Frame) : Prop :=
  opcode f = OPCODE_CONTINUATION /\ fin f = 1.

(** The chunks of text that a list of payloads decodes to, when each
    payload is well-formed UTF-8 on its own. *)
Fixpoint decode_all {codec : Utf8Codec} (l : list bytes) : option (list ustring) :=
  match l with
  | [] => Some []
  | b :: r =>
    match decode_utf8 b, decode_all r with
    | Some u, Some us => Some (u :: us)
    | _, _ => None
    end
  end.

Module Sample.


(** "Hello" in the two fragments of the specification's scenario B, and in
    three. *)
Definition hel : Frame := mkFrame 0 OPCODE_TEXT None ["H"; "e"; "l"]%byte.
Definition lo : Frame := mkFrame 1 OPCODE_CONTINUATION None ["l"; "o"]%byte.
Definition l_ : Frame := mkFrame 0 OPCODE_CONTINUATION None ["l"]%byte.
Definition o_ : Frame := mkFrame 1 OPCODE_CONTINUATION None ["o"]%byte.

(** A text frame and a continuation frame whose body is the lone byte FF. *)
Definition bad_text : Frame := mkFrame 1 OPCODE_TEXT None [xff].
Definition bad_chunk : Frame := mkFrame 1 OPCODE_CONTINUATION None [xff].

(** A stream with the text message "Hel" in progress. *)
Definition in_progress : Stream.t :=
  Stream.set_message (Some (TextMessage [72; 101; 108]%N false)) Stream.init.

(** A binary frame, a ping with payload "a", a pong, a continuation frame
    out of the blue and a close frame that carries the code 1001 (03 E9). *)
Definition blob : Frame := mkFrame 1 OPCODE_BINARY None [x01; x02].
Definition ping_a : Frame := mkFrame 1 OPCODE_PING None ["a"]%byte.
Definition pong_b : Frame := mkFrame 1 OPCODE_PONG None ["b"]%byte.
Definition stray : Frame := mkFrame 1 OPCODE_CONTINUATION None ["x"]%byte.
Definition going_away : Frame := mkFrame 1 OPCODE_CLOSE None [x03; xe9].

(** The reads that deliver them. Of the bytes of a read the loop looks
    only at whether there are any; what they hold is the decoder's
    business. *)
Definition read (f : Frame) : WebSocketHandler.Recv :=
  WebSocketHandler.Data [x00; x00] (Ready f).

(** A handler on which the application has called [close()] once. *)
Definition closed_by_application : WebSocketHandler.t :=
  snd (WebSocketHandler.close 1000 [] (WebSocketHandler.init false)).

(** The binary message 01 02 03 in three fragments. *)
Definition bin_1 : Frame := mkFrame 0 OPCODE_BINARY None [x01].
Definition bin_2 : Frame := mkFrame 0 OPCODE_CONTINUATION None [x02].
Definition bin_3 : Frame := mkFrame 1 OPCODE_CONTINUATION None [x03].

(** A fresh handler whose stream has just taken in the ping "a", then a
    second ping "c" and the pong "b". *)
Definition pinged : WebSocketHandler.t :=
  WebSocketHandler.set_stream
    (Stream.feed [ping_a; mkFrame 1 OPCODE_PING None ["c"]%byte; pong_b] Stream.init)
    (WebSocketHandler.init false).

End Sample.

(** ** threadedhandler.py: [send] *)

Module Send.

(** What a caller hands to [send], by the tests [send] makes on it: a
    [basestring] or a [bytearray]; a [messaging.Message]; a generator,
    with the chunks it yields; anything else. *)
Inductive Payload :=
| Literal (data : bytes)
| Built (m : Message)
| Generator (chunks : list bytes)
| Other.

(** The argument of one [write_to_connection], kept symbolic (the encoder
    is absent): [message_sender(payload).single()], [payload.single()], and
    [message_sender(bytes).fragment(...)] with the keyword arguments the
    call passes, [None] for one it leaves to the default. [binary] tells
    which [message_sender] was chosen, [stream.binary_message] or
    [stream.text_message]. *)
Inductive Written :=
| Single (binary : bool) (data : bytes)
| SingleOf (m : Message)
| Fragment (binary : bool) (data : bytes) (first last : option bool).

(** The [for chunk in payload] loop and the write that follows it, with
    [held] the chunk in the variable [bytes] and [first] the flag. *)
Fixpoint fragments (binary : bool) (held : bytes) (first : bool)
  (rest : list bytes) : list Written :=
  match rest with
  | [] => [Fragment binary held None (Some true)]
  | chunk :: rest' =>
    Fragment binary held (Some first) None :: fragments binary chunk false rest'
  end.

(** [send(payload, binary=False)]: how the call ends and what it has
    written, in order. [payload.next()] on a generator that yields nothing
    raises [StopIteration]. *)
Definition send (payload : Payload) (binary : bool) : (unit + Exn) * list Written :=
  match payload with
  | Literal data => (inl tt, [Single binary data])
  | Built m => (inl tt, [SingleOf m])
  | Generator [] => (inr StopIteration, [])
  | Generator (held :: rest) => (inl tt, fragments binary held true rest)
  | Other => (inl tt, [])
  end.

Definition written_data (w : Written) : option bytes :=
  match w with
  | Single _ d => Some d
  | SingleOf _ => None
  | Fragment _ d _ _ => Some d
  end.

Definition passes_first (w : Written) : bool :=
  match w with
  | Fragment _ _ (Some true) _ => true
  | _ => false
  end.

Definition passes_last (w : Written) : bool :=
  match w with
  | Fragment _ _ _ (Some true) => true
  | _ => false
  end.

End Send.

(** ** Frames by kind, and the reads that bring a frame in *)

Definition is_data (f : Frame) : bool :=
  (opcode f =? OPCODE_TEXT) || (opcode f =? OPCODE_BINARY)
  || (opcode f =? OPCODE_CONTINUATION).

Definition is_close (f : Frame) : bool := opcode f =? OPCODE_CLOSE.
Definition is_ping (f : Frame) : bool := opcode f =? OPCODE_PING.
Definition is_pong (f : Frame) : bool := opcode f =? OPCODE_PONG.

(** The close codes that the dispatch of a frame queues. *)
Definition dispatch_code (c : Z) : bool :=
  (c =? 1002) || (c =? 1003) || (c =? 1007).

(** The reads of the loop that take in the frame [f]: the read on which
    the decoder finishes it and, when its payload is empty, the read of no
    bytes that the alignment [yield 0] asks for. *)
Definition reads (b0 : byte) (b : bytes) (f : Frame) : list WebSocketHandler.Recv :=
  WebSocketHandler.Data (b0 :: b) (Ready f)
  :: (if truthy (Stream.payload f) then []
      else [WebSocketHandler.Data [] (NeedBytes FIRST_REQUEST)]).

Module MoreSamples.

(** A ping without payload, the text "Hello" in one frame (scenario A of
    the specification), and a ping frame that the decoder gives up on
    because it is fragmented. *)
Definition empty_ping : Frame := mkFrame 1 OPCODE_PING None [].
Definition hello : Frame :=
  mkFrame 1 OPCODE_TEXT None ["H"; "e"; "l"; "l"; "o"]%byte.
Definition fragmented_ping : Frame := mkFrame 0 OPCODE_PING None [].

(** A fresh handler after the turn that has read the empty ping: its
    receiver waits at the alignment [yield 0]. *)
Definition after_empty_ping : WebSocketHandler.t :=
  snd (WebSocketHandler.turn (Sample.read empty_ping) 2 (WebSocketHandler.init false)).

(** A fresh handler after the turn that has read the fragment "Hel". *)
Definition after_hel : WebSocketHandler.t :=
  snd (WebSocketHandler.turn (Sample.read Sample.hel) 2 (WebSocketHandler.init false)).

End MoreSamples.

(** * Properties *)

Section StreamProperties.

Context {codec : Utf8Codec}.

Lemma feed_cons (f : Frame) (fs : list Frame) (s : Stream.t) :
  Stream.feed (f :: fs) s = Stream.feed fs (Stream.stream_of (Stream.dispatch f s)).
Proof. reflexivity. Qed.

Lemma feed_app (fs gs : list Frame) (s : Stream.t) :
  Stream.feed (fs ++ gs) s = Stream.feed gs (Stream.feed fs s).
Proof. unfold Stream.feed. apply fold_left_app. Qed.

Lemma dispatch_binary (f : Frame) (s : Stream.t) :
  opcode f = OPCODE_BINARY ->
  Stream.dispatch f s =
  Stream.Through
    (Stream.set_message (Some (BinaryMessage (Stream.payload f) (fin f =? 1))) s).
Proof. intros H. unfold Stream.dispatch. rewrite H. reflexivity. Qed.

Lemma dispatch_text (f : Frame) (s : Stream.t) :
  opcode f = OPCODE_TEXT ->
  Stream.incomplete s = false ->
  Stream.dispatch f s =
  match decode_utf8 (Stream.payload f) with
  | Some text => Stream.Through (Stream.set_message (Some (TextMessage text (fin f =? 1))) s)
  | None => Stream.Break (Stream.add_error 1007 s)
  end.
Proof. intros H G. unfold Stream.dispatch. rewrite H, G. reflexivity. Qed.

Lemma dispatch_continuation_none (f : Frame) (s : Stream.t) :
  opcode f = OPCODE_CONTINUATION ->
  Stream.message s = None ->
  Stream.dispatch f s = Stream.Break (Stream.add_error 1002 s).
Proof. intros H G. unfold Stream.dispatch. rewrite H, G. reflexivity. Qed.

Lemma dispatch_continuation_binary (f : Frame) (s : Stream.t) (d : bytes) (c : bool) :
  opcode f = OPCODE_CONTINUATION ->
  Stream.message s = Some (BinaryMessage d c) ->
  Stream.dispatch f s =
  Stream.Through
    (Stream.set_message (Some (BinaryMessage (d ++ Stream.payload f) (fin f =? 1))) s).
Proof. intros H G. unfold Stream.dispatch. rewrite H, G. reflexivity. Qed.

Lemma dispatch_continuation_text (f : Frame) (s : Stream.t) (t : ustring) (c : bool) :
  opcode f = OPCODE_CONTINUATION ->
  Stream.message s = Some (TextMessage t c) ->
  Stream.dispatch f s =
  match decode_utf8 (Stream.payload f) with
  | Some chunk =>
    Stream.Through
      (Stream.set_message (Some (TextMessage (t ++ chunk) (fin f =? 1))) s)
  | None =>
    Stream.Break
      (Stream.add_error 1007
         (Stream.set_message (Some (TextMessage t (fin f =? 1))) s))
  end.
Proof.
  intros H G. unfold Stream.dispatch. rewrite H, G. simpl.
  destruct (decode_utf8 (Stream.payload f)); reflexivity.
Qed.

Lemma decode_all_app (a b : list bytes) (cs : list ustring) :
  decode_all (a ++ b) = Some cs ->
  exists ca cb, decode_all a = Some ca /\ decode_all b = Some cb /\ cs = ca ++ cb.
Proof.
  revert cs. induction a as [|x a IH]; simpl; intros cs H.
  - exists [], cs. auto.
  - destruct (decode_utf8 x) as [u|]; [|discriminate].
    destruct (decode_all (a ++ b)) as [us|] eqn:E; [|discriminate].
    injection H as <-.
    destruct (IH us eq_refl) as (ca & cb & Ha & Hb & ->).
    exists (u :: ca), cb. rewrite Ha. auto.
Qed.








Lemma dispatch_text_incomplete (f : Frame) (s : Stream.t) :
  opcode f = OPCODE_TEXT ->
  Stream.incomplete s = true ->
  Stream.dispatch f s = Stream.Break (Stream.add_error 1002 s).
Proof. intros H G. unfold Stream.dispatch. rewrite H, G. reflexivity. Qed.

Lemma dispatch_close (f : Frame) (s : Stream.t) :
  opcode f = OPCODE_CLOSE ->
  Stream.dispatch f s =
  Stream.Through
    (Stream.set_closing
       (Some (close_with_reason (decode_utf8_replace (Stream.payload f)))) s).
Proof. intros H. unfold Stream.dispatch. rewrite H. reflexivity. Qed.

(** C2 (the code departs from it). A binary frame is dispatched without the
    test the text branch makes: whatever the stream holds, and so also
    while a message is in progress and not completed, the binary frame
    queues no error and its new message takes the place of the one in
    progress. On the stream with the text "Hel" in progress, the binary
    frame 01 02 leaves the error queue empty and the completed binary
    message 01 02 in the slot. *)
Theorem binary_frame_replaces_message_in_progress
  (fin_ : Z) (key : option bytes) (body_ : bytes) (s : Stream.t) :
  let f := mkFrame fin_ OPCODE_BINARY key body_ in
  Stream.dispatch f s
  = Stream.Through
      (Stream.set_message (Some (BinaryMessage (Stream.payload f) (fin_ =? 1))) s)
  /\ Stream.errors (Stream.stream_of (Stream.dispatch f s)) = Stream.errors s
  /\ Stream.incomplete Sample.in_progress = true
  /\ Stream.errors (Stream.stream_of (Stream.dispatch Sample.blob Sample.in_progress)) = []
  /\ Stream.message (Stream.stream_of (Stream.dispatch Sample.blob Sample.in_progress))
     = Some (BinaryMessage [x01; x02] true).
Proof.
  intros f. rewrite (dispatch_binary f s eq_refl).
  repeat split.
Qed.

(** C7 (amended). A text frame that arrives while no incomplete message
    is in progress and whose payload does not decode as UTF-8 queues an error
    with close code 1007 and leaves the message slot as it was; a
    continuation frame for a text message in progress whose chunk does not
    decode queues an error with close code 1007 and leaves the text of the
    message unextended. Both leave the dispatch through [break]. *)
Theorem invalid_utf8_queues_1007 (f : Frame) (s : Stream.t) :
  decode_utf8 (Stream.payload f) = None ->
  (opcode f = OPCODE_TEXT ->
   Stream.incomplete s = false ->
   exists s', Stream.dispatch f s = Stream.Break s'
     /\ Stream.errors s' = Stream.errors s ++ [close_with_code 1007]
     /\ Stream.message s' = Stream.message s)
  /\
  (opcode f = OPCODE_CONTINUATION ->
   forall text c, Stream.message s = Some (TextMessage text c) ->
   exists s' c', Stream.dispatch f s = Stream.Break s'
     /\ Stream.errors s' = Stream.errors s ++ [close_with_code 1007]
     /\ Stream.message s' = Some (TextMessage text c')).
Proof.
  intros Hd. split.
  - intros Hop Hs. rewrite (dispatch_text f s Hop Hs), Hd.
    eexists. repeat split.
  - intros Hop text c Hm. rewrite (dispatch_continuation_text f s text c Hop Hm), Hd.
    do 2 eexists. repeat split.
Qed.

(** C10. When a continuation frame arrives for a text message in progress
    and its chunk does not decode as UTF-8, error 1007 is queued and the
    text of the message is not extended, but the message's [completed]
    flag is by then the [fin] bit of the failing frame: the assignment
    comes before the decode. When the flag differed from that bit, the
    message in progress is not what it was. *)
Theorem failed_chunk_overwrites_completed
  (f : Frame) (s : Stream.t) (text : ustring) (c : bool) :
  opcode f = OPCODE_CONTINUATION ->
  Stream.message s = Some (TextMessage text c) ->
  decode_utf8 (Stream.payload f) = None ->
  let s' := Stream.stream_of (Stream.dispatch f s) in
  Stream.errors s' = Stream.errors s ++ [close_with_code 1007]
  /\ Stream.message s' = Some (TextMessage text (fin f =? 1))
  /\ Stream.has_message s' = (fin f =? 1)
  /\ (c <> (fin f =? 1) -> Stream.message s' <> Stream.message s).
Proof.
  intros Hop Hm Hd s'. subst s'.
  rewrite (dispatch_continuation_text f s text c Hop Hm), Hd.
  repeat split.
  simpl. rewrite Hm. intros Hc E. apply Hc. injection E. auto.
Qed.

End StreamProperties.

Section DriverProperties.

Context {codec : Utf8Codec}.

Import WebSocketHandler.

Lemma sending_nil (h : t) : sending [] h = h.
Proof.
  destruct h as [s [ws f sh cl] ct st cs]. unfold sending, set_sock. simpl.
  rewrite app_nil_r. reflexivity.
Qed.

Lemma sending_sending (a b : list Wire) (h : t) :
  sending b (sending a h) = sending (a ++ b) h.
Proof. unfold sending, set_sock. simpl. rewrite app_assoc. reflexivity. Qed.

Lemma calling_nil (h : t) : calling [] h = h.
Proof.
  destruct h as [s k ct st cs]. unfold calling, set_calls. simpl.
  rewrite app_nil_r. reflexivity.
Qed.

Lemma calling_calling (a b : list Callback) (h : t) :
  calling b (calling a h) = calling (a ++ b) h.
Proof. unfold calling, set_calls. simpl. rewrite app_assoc. reflexivity. Qed.

(** [close] on a handler that has not yet closed: the flag is set, then
    the call of [.single()] on the encoded frame raises, before anything
    is written. *)
Lemma close_first (c : Z) (r : ustring) (h : t) :
  server_terminated h = false ->
  close c r h = (inr AttributeError, set_server_terminated true h).
Proof. intros H. unfold close, close_with, bind, get. simpl. rewrite H. reflexivity. Qed.

(** [close] on a handler that has closed already does nothing. *)
Lemma close_again (c : Z) (r : ustring) (h : t) :
  server_terminated h = true ->
  close c r h = (inl tt, h).
Proof. intros H. unfold close, close_with, bind, get. simpl. rewrite H. reflexivity. Qed.

Lemma answer_pings (l : list PingControlMessage) : forall h : t,
  for_each l (fun ping => write_to_connection (Stream.pong (ping_data ping))) h
  = (inl tt, sending (map (fun p => PongFrame (ping_data p)) l) h).
Proof.
  induction l as [|p l IH]; intros h; simpl.
  - rewrite sending_nil. reflexivity.
  - unfold bind at 1. simpl. rewrite IH, sending_sending. reflexivity.
Qed.

Lemma report_pongs (l : list PongControlMessage) : forall h : t,
  for_each l (fun pong => ponged pong) h = (inl tt, calling (map Ponged l) h).
Proof.
  induction l as [|p l IH]; intros h; simpl.
  - rewrite calling_nil. reflexivity.
  - unfold bind at 1. simpl. rewrite IH, calling_calling. reflexivity.
Qed.

Lemma close_eqb_refl (e : CloseControlMessage) : close_eqb e e = true.
Proof.
  unfold close_eqb. rewrite Z.eqb_refl.
  destruct (list_eq_dec N.eq_dec (reason e) (reason e)); [reflexivity|contradiction].
Qed.

(** The walk over the error queue on a handler that has closed already:
    every [close] is void and every record is removed. *)
Lemma drain_errors_closed (l : list CloseControlMessage) : forall h : t,
  server_terminated h = true ->
  Stream.errors (stream h) = l ->
  for_each l (fun error =>
    close (code error) (reason error) ;;
    modify_stream (fun s => Stream.set_errors (remove error (Stream.errors s)) s)) h
  = (inl tt, set_stream (Stream.set_errors [] (stream h)) h).
Proof.
  induction l as [|e l IH]; intros h Hst He.
  - simpl. unfold ret. f_equal.
    destruct h as [[m pi po cl er pa] k ct st cs]. simpl in *. subst er. reflexivity.
  - simpl. unfold bind at 1. unfold bind at 1.
    rewrite (close_again _ _ h Hst). simpl.
    rewrite He. simpl. rewrite close_eqb_refl.
    rewrite IH; auto.
Qed.

Lemma drain_drained (h : t) : drain h = (inl tt, drained h).
Proof.
  unfold drain, bind, get. rewrite answer_pings. simpl.
  rewrite report_pongs. reflexivity.
Qed.

(** *** The inspection, case by case *)

Lemma inspect_closing_first (n : Z) (h : t) (c : CloseControlMessage) :
  Stream.closing (stream h) = Some c ->
  server_terminated h = false ->
  inspect n h = (inr AttributeError, set_server_terminated true h).
Proof.
  intros Hc Hs. unfold inspect, react, react_with, bind, get. simpl. rewrite Hc, Hs. simpl.
  rewrite (close_first _ _ h Hs). reflexivity.
Qed.

Lemma inspect_closing_second (n : Z) (h : t) (c : CloseControlMessage) :
  Stream.closing (stream h) = Some c ->
  server_terminated h = true ->
  inspect n h = (inl Leave, set_client_terminated true h).
Proof.
  intros Hc Hs. unfold inspect, react, react_with, bind, get. simpl. rewrite Hc, Hs. reflexivity.
Qed.

Lemma inspect_errors_first (n : Z) (h : t) :
  Stream.closing (stream h) = None ->
  Stream.errors (stream h) <> [] ->
  server_terminated h = false ->
  inspect n h = (inr AttributeError, set_server_terminated true h).
Proof.
  intros Hc He Hs. unfold inspect, react, react_with, bind, get. simpl. rewrite Hc.
  destruct (Stream.errors (stream h)) as [|e l]; [contradiction|]. simpl.
  unfold bind. rewrite (close_first _ _ h Hs). reflexivity.
Qed.

Lemma inspect_errors_closed (n : Z) (h : t) :
  Stream.closing (stream h) = None ->
  Stream.errors (stream h) <> [] ->
  server_terminated h = true ->
  inspect n h = (inl Leave, set_stream (Stream.set_errors [] (stream h)) h).
Proof.
  intros Hc He Hs. unfold inspect, react, react_with. unfold bind at 1 2. unfold get.
  rewrite Hc.
  destruct (Stream.errors (stream h)) as [|e l] eqn:E; [contradiction|].
  cbn [truthy]. unfold bind at 1. change (close_with bytes_single) with close.
  rewrite (drain_errors_closed (e :: l) h Hs E). reflexivity.
Qed.

Lemma inspect_quiet (n : Z) (h : t) :
  Stream.closing (stream h) = None ->
  Stream.errors (stream h) = [] ->
  inspect n h = (inl (Next n), drained (surfaced h)).
Proof.
  intros Hc He. unfold inspect, react, react_with. unfold bind at 1 2. unfold get.
  rewrite Hc, He. cbn [truthy]. unfold surfaced.
  destruct (Stream.has_message (stream h)) eqn:Hm.
  - unfold Stream.has_message in Hm.
    destruct (Stream.message (stream h)) as [m|]; [|discriminate].
    unfold bind at 1 2. simpl. unfold bind. rewrite drain_drained. reflexivity.
  - unfold ret at 1. unfold bind. rewrite drain_drained. reflexivity.
Qed.

(** *** The [closed] callback is not made inside the loop *)

Lemma no_closed_call_in_pongs (l : list PongControlMessage) :
  filter is_closed_call (map Ponged l) = [].
Proof. induction l; simpl; auto. Qed.

Lemma surfaced_closed_calls (h : t) :
  filter is_closed_call (calls (surfaced h)) = filter is_closed_call (calls h).
Proof.
  unfold surfaced. destruct (Stream.has_message (stream h)); [|reflexivity].
  destruct (Stream.message (stream h)); [|reflexivity].
  simpl. rewrite filter_app. simpl. apply app_nil_r.
Qed.

Lemma drained_closed_calls (h : t) :
  filter is_closed_call (calls (drained h)) = filter is_closed_call (calls h).
Proof.
  unfold drained. simpl. rewrite filter_app, no_closed_call_in_pongs.
  apply app_nil_r.
Qed.

Lemma inspect_closed_calls (n : Z) (h : t) :
  filter is_closed_call (calls (snd (inspect n h))) = filter is_closed_call (calls h).
Proof.
  destruct (Stream.closing (stream h)) as [c|] eqn:Hc;
    destruct (server_terminated h) eqn:Hs.
  - rewrite (inspect_closing_second n h c Hc Hs). reflexivity.
  - rewrite (inspect_closing_first n h c Hc Hs). reflexivity.
  - destruct (Stream.errors (stream h)) as [|e l] eqn:He.
    + rewrite (inspect_quiet n h Hc He). simpl snd.
      rewrite drained_closed_calls. apply surfaced_closed_calls.
    + rewrite (inspect_errors_closed n h Hc); [reflexivity| |assumption].
      rewrite He. discriminate.
  - destruct (Stream.errors (stream h)) as [|e l] eqn:He.
    + rewrite (inspect_quiet n h Hc He). simpl snd.
      rewrite drained_closed_calls. apply surfaced_closed_calls.
    + rewrite (inspect_errors_first n h Hc); [reflexivity| |assumption].
      rewrite He. discriminate.
Qed.

Lemma turn_closed_calls (r : Recv) (n : Z) (h : t) :
  filter is_closed_call (calls (snd (turn r n h))) = filter is_closed_call (calls h).
Proof.
  destruct r as [b d|]; [|reflexivity]. unfold turn.
  destruct (negb (truthy b) && (n >? 0)); [reflexivity|].
  unfold bind, parser_send.
  destruct (Stream.receiver d (stream h)) as [[n1|e] s1]; [|reflexivity].
  rewrite inspect_closed_calls. reflexivity.
Qed.

Lemma loop_closed_calls (script : list Recv) : forall (n : Z) (h : t) x h',
  loop script n h = Some (x, h') ->
  filter is_closed_call (calls h') = filter is_closed_call (calls h).
Proof.
  induction script as [|r rest IH]; intros n h x h' H; simpl in H.
  - destruct (terminated h); [|discriminate]. injection H as _ <-. reflexivity.
  - destruct (terminated h); [injection H as _ <-; reflexivity|].
    pose proof (turn_closed_calls r n h) as T.
    destruct (turn r n h) as [[[n1|]|e] h1]; simpl in T.
    + rewrite <- T. eapply IH; eauto.
    + injection H as _ <-. assumption.
    + injection H as _ <-. assumption.
Qed.

Lemma teardown_result (h : t) :
  terminated (snd (teardown h)) = true
  /\ Stream.closing (stream (snd (teardown h))) = Stream.closing (stream h)
  /\ calls (snd (teardown h))
     = calls h ++ match Stream.closing (stream h) with
                  | None => [Closed 1006 None]
                  | Some _ => []
                  end
  /\ sent (sock (snd (teardown h))) = sent (sock h)
  /\ (shutdown_fails (sock h) = false ->
      is_shutdown (sock (snd (teardown h))) = true
      /\ is_closed (sock (snd (teardown h))) = true).
Proof.
  unfold teardown, bind, get, modify. simpl.
  destruct (Stream.closing (stream h)) as [c|] eqn:Hc; simpl;
    destruct (shutdown_fails (sock h)) eqn:Hf; simpl;
    rewrite ?Hc, ?app_nil_r; repeat split; auto; discriminate.
Qed.

(** *** One turn of the loop on a completed frame *)

Lemma finish_stream (f : Frame) (x : Stream.Exit) :
  let s := snd (Stream.finish f x) in
  Stream.message s = Stream.message (Stream.stream_of x)
  /\ Stream.pings s = Stream.pings (Stream.stream_of x)
  /\ Stream.pongs s = Stream.pongs (Stream.stream_of x)
  /\ Stream.closing s = Stream.closing (Stream.stream_of x)
  /\ Stream.errors s = Stream.errors (Stream.stream_of x).
Proof.
  destruct x as [s|s]; simpl; [repeat split|].
  destruct (truthy (Stream.payload f)); repeat split.
Qed.

Lemma turn_ready (b0 : byte) (b : bytes) (f : Frame) (n : Z) (h : t) :
  Stream.parser (stream h) = Stream.AtRead ->
  turn (Data (b0 :: b) (Ready f)) n h
  = inspect (fst (Stream.finish f (Stream.dispatch f (stream h))))
            (set_stream (snd (Stream.finish f (Stream.dispatch f (stream h)))) h).
Proof.
  intros Hp. unfold turn, bind, parser_send, Stream.receiver. simpl.
  rewrite Hp. destruct (Stream.finish f (Stream.dispatch f (stream h))).
  reflexivity.
Qed.

Lemma loop_left (r : Recv) (rest : list Recv) (n : Z) (h h1 : t) (x : Ctl + Exn) :
  terminated h = false ->
  turn r n h = (x, h1) ->
  (forall m, x <> inl (Next m)) ->
  exists y, loop (r :: rest) n h = Some (y, h1).
Proof.
  intros Ht Hturn Hx. simpl. rewrite Ht, Hturn.
  destruct x as [[m|]|e]; [destruct (Hx m eq_refl)| |]; eexists; reflexivity.
Qed.

(** The loop is left, at the latest, when a read fails. *)
Lemma loop_exits_on_failure (script : list Recv) : forall (n : Z) (h : t),
  exists x h', loop (script ++ [RecvError]) n h = Some (x, h').
Proof.
  induction script as [|r rest IH]; intros n h; simpl.
  - destruct (terminated h); do 2 eexists; reflexivity.
  - destruct (terminated h); [do 2 eexists; reflexivity|].
    destruct (turn r n h) as [[[m|]|e] h1]; [apply IH| |]; do 2 eexists; reflexivity.
Qed.

(** C1 (the code departs from it). On a handler that has not closed yet,
    [close(code, reason)] sets the server-terminated flag and then raises
    [AttributeError], at the call of [.single()] on the encoded frame,
    before [write_to_connection] is reached: nothing is transmitted. A
    second call, with any arguments, finds the flag set and does nothing,
    so two calls transmit no Close frame at all. The client-terminated
    flag is not touched by either call. *)
Theorem close_sets_flag_but_transmits_nothing
  (c : Z) (r : ustring) (c2 : Z) (r2 : ustring) (h : t) :
  let h0 := set_server_terminated false h in
  let h1 := snd (close c r h0) in
  let h2 := snd (close c2 r2 h1) in
  close c r h0 = (inr AttributeError, set_server_terminated true h)
  /\ server_terminated h1 = true
  /\ sent (sock h1) = sent (sock h)
  /\ close c2 r2 h1 = (inl tt, h1)
  /\ sent (sock h2) = sent (sock h)
  /\ client_terminated h2 = client_terminated h
  /\ terminated (snd (close c r (init false))) = false.
Proof.
  intros h0 h1 h2.
  assert (E1 : close c r h0 = (inr AttributeError, set_server_terminated true h))
    by (apply (close_first c r h0); reflexivity).
  assert (E2 : close c2 r2 h1 = (inl tt, h1)).
  { apply close_again. unfold h1. rewrite E1. reflexivity. }
  unfold h2. rewrite E2. unfold h1. rewrite E1.
  rewrite (close_first c r (init false) eq_refl).
  repeat split.
Qed.

(** C3 (the code departs from it). [_receive] returns once a read fails,
    if not before. Whenever it returns, both
    termination flags are set, the transport is shut down and closed unless
    [shutdown] itself fails, and the only [closed] callback it has made is
    [closed(1006)], made when no close message is recorded on the stream.
    When a close message is recorded, [closed] is not called at all, with
    the observed code or any other: a peer's close frame, arriving on a
    fresh handler or on one the application has closed, ends the loop with
    no callback. *)
Theorem closed_callback_never_gets_observed_code :
  (forall (script : list Recv) (h : t),
     exists h', _receive (script ++ [RecvError]) h = Some h')
  /\
  (forall (script : list Recv) (h : t),
     match _receive script h with
     | None => True
     | Some h' =>
       terminated h' = true
       /\ filter is_closed_call (calls h')
          = filter is_closed_call (calls h)
            ++ match Stream.closing (stream h') with
               | None => [Closed 1006 None]
               | Some _ => []
               end
       /\ (shutdown_fails (sock h') = false ->
           is_shutdown (sock h') = true /\ is_closed (sock h') = true)
     end)
  /\
  (forall (fin_ : Z) (key : option bytes) (body_ : bytes)
          (b0 : byte) (b : bytes) (rest : list Recv) (fails : bool),
     let f := mkFrame fin_ OPCODE_CLOSE key body_ in
     exists h',
       _receive (Data (b0 :: b) (Ready f) :: rest) (init fails) = Some h'
       /\ Stream.closing (stream h')
          = Some (close_with_reason (decode_utf8_replace (Stream.payload f)))
       /\ calls h' = []
       /\ terminated h' = true)
  /\
  (forall (fin_ : Z) (key : option bytes) (body_ : bytes)
          (b0 : byte) (b : bytes) (rest : list Recv) (fails : bool)
          (c : Z) (r : ustring),
     let f := mkFrame fin_ OPCODE_CLOSE key body_ in
     exists h',
       _receive (Data (b0 :: b) (Ready f) :: rest) (snd (close c r (init fails)))
       = Some h'
       /\ Stream.closing (stream h')
          = Some (close_with_reason (decode_utf8_replace (Stream.payload f)))
       /\ calls h' = []
       /\ terminated h' = true).
Proof.
  split; [|split; [|split]].
  - intros script h. unfold _receive.
    destruct (loop_exits_on_failure script 2 h) as (x & h1 & ->).
    eexists. reflexivity.
  - intros script h. unfold _receive.
    destruct (loop script 2 h) as [[x h1]|] eqn:L; [|exact I].
    pose proof (loop_closed_calls script 2 h x h1 L) as C.
    destruct (teardown_result h1) as (T1 & T2 & T3 & T4 & T5).
    split; [assumption|]. split.
    + rewrite T3, T2, filter_app, C. f_equal.
      destruct (Stream.closing (stream h1)); reflexivity.
    + intros Hf. apply T5.
      revert Hf. unfold teardown, bind, get, modify. simpl.
      destruct (Stream.closing (stream h1)); simpl;
        destruct (shutdown_fails (sock h1)) eqn:E; simpl; rewrite ?E; auto.
  - intros fin_ key body_ b0 b rest fails f.
    pose (h1 := set_stream
                  (snd (Stream.finish f (Stream.dispatch f (stream (init fails)))))
                  (init fails)).
    assert (Hc : Stream.closing (stream h1)
                 = Some (close_with_reason (decode_utf8_replace (Stream.payload f)))).
    { destruct (finish_stream f (Stream.dispatch f (stream (init fails))))
        as (_ & _ & _ & E & _).
      exact E. }
    destruct (loop_left (Data (b0 :: b) (Ready f)) rest 2 (init fails)
                (set_server_terminated true h1) (inr AttributeError) eq_refl)
      as [y L].
    { rewrite turn_ready by reflexivity.
      apply (inspect_closing_first _ h1 _ Hc eq_refl). }
    { discriminate. }
    unfold _receive. rewrite L. eexists. split; [reflexivity|].
    destruct (teardown_result (set_server_terminated true h1)) as (T1 & T2 & T3 & _).
    repeat split; [rewrite T2; exact Hc | | exact T1].
    rewrite T3.
    change (Stream.closing (stream (set_server_terminated true h1)))
      with (Stream.closing (stream h1)).
    rewrite Hc. reflexivity.
  - intros fin_ key body_ b0 b rest fails c r f.
    pose (h0 := snd (close c r (init fails))).
    pose (h1 := set_stream
                  (snd (Stream.finish f (Stream.dispatch f (stream h0)))) h0).
    assert (Hc : Stream.closing (stream h1)
                 = Some (close_with_reason (decode_utf8_replace (Stream.payload f)))).
    { destruct (finish_stream f (Stream.dispatch f (stream h0)))
        as (_ & _ & _ & E & _).
      exact E. }
    destruct (loop_left (Data (b0 :: b) (Ready f)) rest 2 h0
                (set_client_terminated true h1) (inl Leave) eq_refl)
      as [y L].
    { rewrite turn_ready by reflexivity.
      apply (inspect_closing_second _ h1 _ Hc eq_refl). }
    { discriminate. }
    fold h0. unfold _receive. rewrite L. eexists. split; [reflexivity|].
    destruct (teardown_result (set_client_terminated true h1)) as (T1 & T2 & T3 & _).
    repeat split; [rewrite T2; exact Hc | | exact T1].
    rewrite T3.
    change (Stream.closing (stream (set_client_terminated true h1)))
      with (Stream.closing (stream h1)).
    rewrite Hc. reflexivity.
Qed.

Lemma teardown_stream (h : t) : stream (snd (teardown h)) = stream h.
Proof.
  unfold teardown, bind, get, modify. simpl.
  destruct (Stream.closing (stream h)); simpl;
    destruct (shutdown_fails (sock h)); reflexivity.
Qed.

(** C5 (the code departs from it). A continuation frame that finds no
    message in progress makes the assembler queue an error with close code
    1002. On a fresh handler the driver then calls [close(1002, '')], which
    raises before it writes: the loop is left, nothing has been sent, the
    record is still in the queue, [closed(1006)] is called and the
    connection is torn down. *)
Theorem stray_continuation_gets_no_close_frame
  (fin_ : Z) (key : option bytes) (body_ : bytes)
  (b0 : byte) (b : bytes) (rest : list Recv) (fails : bool) :
  let f := mkFrame fin_ OPCODE_CONTINUATION key body_ in
  (forall s : Stream.t,
     Stream.dispatch f (Stream.set_message None s)
     = Stream.Break (Stream.add_error 1002 (Stream.set_message None s)))
  /\
  exists h',
    _receive (Data (b0 :: b) (Ready f) :: rest) (init fails) = Some h'
    /\ Stream.errors (stream h') = [close_with_code 1002]
    /\ sent (sock h') = []
    /\ calls h' = [Closed 1006 None]
    /\ terminated h' = true.
Proof.
  intros f. split; [reflexivity|].
  pose (h1 := set_stream
                (snd (Stream.finish f (Stream.dispatch f (stream (init fails)))))
                (init fails)).
  destruct (loop_left (Data (b0 :: b) (Ready f)) rest 2 (init fails)
              (set_server_terminated true h1) (inr AttributeError) eq_refl)
    as [y L].
  { rewrite turn_ready by reflexivity.
    apply (inspect_errors_first _ h1); [reflexivity|discriminate|reflexivity]. }
  { discriminate. }
  unfold _receive. rewrite L. eexists. split; [reflexivity|].
  destruct (teardown_result (set_server_terminated true h1)) as (T1 & T2 & T3 & T4 & _).
  repeat split; [rewrite teardown_stream; reflexivity | rewrite T4; reflexivity
                | rewrite T3; reflexivity | exact T1].
Qed.

(** C4 (the code departs from it). An error is queued at the driver's
    inspection point, no close message is recorded and the handler has not
    closed yet: the walk over the queue stops at its first record, whose
    [close(code, reason)] sets the server-terminated flag and raises at
    [.single()] before it writes. No Close frame goes out, for that record
    or for a later one, no record is removed from the queue and the
    inspection ends with [AttributeError]. So on a fresh connection whose
    first frame has the reserved opcode 3: the assembler queues the code
    1003, [_receive] returns with nothing sent, the record still queued,
    [closed(1006)] called and the connection torn down. *)
Theorem queued_error_gets_no_close_frame
  (e : CloseControlMessage) (l : list CloseControlMessage) (n : Z) (h : t)
  (fin_ : Z) (key : option bytes) (body_ : bytes)
  (b0 : byte) (b : bytes) (rest : list Recv) (fails : bool) :
  let h0 := set_server_terminated false
              (set_stream (Stream.set_closing None
                             (Stream.set_errors (e :: l) (stream h))) h) in
  let f := mkFrame fin_ 0x3 key body_ in
  inspect n h0 = (inr AttributeError, set_server_terminated true h0)
  /\ sent (sock (snd (inspect n h0))) = sent (sock h)
  /\ Stream.errors (stream (snd (inspect n h0))) = e :: l
  /\ calls (snd (inspect n h0)) = calls h
  /\ (forall s : Stream.t,
       Stream.dispatch f s = Stream.Through (Stream.add_error 1003 s))
  /\ exists h',
       _receive (Data (b0 :: b) (Ready f) :: rest) (init fails) = Some h'
       /\ Stream.errors (stream h') = [close_with_code 1003]
       /\ sent (sock h') = []
       /\ calls h' = [Closed 1006 None]
       /\ terminated h' = true.
Proof.
  intros h0 f.
  assert (I : inspect n h0 = (inr AttributeError, set_server_terminated true h0))
    by (apply (inspect_errors_first n h0); [reflexivity|discriminate|reflexivity]).
  rewrite I. do 4 (split; [reflexivity|]). split; [reflexivity|].
  pose (h1 := set_stream
                (snd (Stream.finish f (Stream.dispatch f (stream (init fails)))))
                (init fails)).
  destruct (finish_stream f (Stream.dispatch f (stream (init fails))))
    as (_ & _ & _ & Hc & He).
  destruct (loop_left (Data (b0 :: b) (Ready f)) rest 2 (init fails)
              (set_server_terminated true h1) (inr AttributeError) eq_refl)
    as [y L].
  { rewrite turn_ready by reflexivity.
    apply (inspect_errors_first _ h1); [exact Hc| |reflexivity].
    unfold h1. cbn [stream set_stream]. rewrite He. discriminate. }
  { discriminate. }
  unfold _receive. rewrite L. eexists. split; [reflexivity|].
  destruct (teardown_result (set_server_terminated true h1)) as (T1 & T2 & T3 & T4 & _).
  repeat split; [rewrite teardown_stream; exact He | rewrite T4; reflexivity
                | | exact T1].
  rewrite T3.
  change (Stream.closing (stream (set_server_terminated true h1)))
    with (Stream.closing (stream h1)).
  unfold h1. cbn [stream set_stream]. rewrite Hc. reflexivity.
Qed.

(** *** What holds of a handler between two turns *)

Lemma drained_surfaced (h : t) :
  Stream.closing (stream (drained (surfaced h))) = Stream.closing (stream h)
  /\ Stream.errors (stream (drained (surfaced h))) = Stream.errors (stream h)
  /\ Stream.pings (stream (drained (surfaced h))) = []
  /\ Stream.pongs (stream (drained (surfaced h))) = []
  /\ Stream.has_message (stream (drained (surfaced h))) = false.
Proof.
  unfold drained, surfaced, Stream.has_message.
  destruct (Stream.message (stream h)) as [m|] eqn:Hm; simpl; rewrite ?Hm.
  - destruct (message_completed m) eqn:Hc; simpl; rewrite ?Hm, ?Hc; repeat split.
  - repeat split.
Qed.

Lemma turn_goes_on (r : Recv) (n m : Z) (h h' : t) :
  turn r n h = (inl (Next m), h') ->
  exists s1, h' = drained (surfaced (set_stream s1 h))
             /\ Stream.closing s1 = None /\ Stream.errors s1 = [].
Proof.
  destruct r as [b d|]; [|discriminate]. unfold turn.
  destruct (negb (truthy b) && (n >? 0)); [discriminate|].
  unfold bind, parser_send.
  destruct (Stream.receiver d (stream h)) as [[n1|e] s1]; [|discriminate].
  intros H. exists s1.
  destruct (Stream.closing s1) as [c|] eqn:Hc.
  - destruct (server_terminated h) eqn:Hs.
    + rewrite (inspect_closing_second n1 (set_stream s1 h) c Hc Hs) in H. discriminate.
    + rewrite (inspect_closing_first n1 (set_stream s1 h) c Hc Hs) in H. discriminate.
  - destruct (Stream.errors s1) as [|e l] eqn:He.
    + rewrite (inspect_quiet n1 (set_stream s1 h) Hc He) in H.
      injection H as _ <-. auto.
    + assert (Hne : Stream.errors (stream (set_stream s1 h)) <> []).
      { simpl. rewrite He. discriminate. }
      destruct (server_terminated h) eqn:Hs.
      * rewrite (inspect_errors_closed n1 (set_stream s1 h) Hc Hne Hs) in H. discriminate.
      * rewrite (inspect_errors_first n1 (set_stream s1 h) Hc Hne Hs) in H. discriminate.
Qed.

(** Between two turns the stream of a running handler holds no close
    message, no error, no ping, no pong and no complete message. *)
Lemma running_quiet (h : t) :
  Running h ->
  Stream.closing (stream h) = None
  /\ Stream.errors (stream h) = []
  /\ Stream.pings (stream h) = []
  /\ Stream.pongs (stream h) = []
  /\ Stream.has_message (stream h) = false.
Proof.
  induction 1 as [fails | c r h R IH | r n m h h' R IH T].
  - repeat split.
  - destruct (server_terminated h) eqn:Hs.
    + rewrite (close_again c r h Hs). exact IH.
    + rewrite (close_first c r h Hs). exact IH.
  - destruct (turn_goes_on r n m h h' T) as (s1 & -> & Hc & He).
    destruct (drained_surfaced (set_stream s1 h)) as (D1 & D2 & D3 & D4 & D5).
    rewrite D1, D2, D3, D4, D5. simpl. auto.
Qed.

(** C8 (amended). A ping frame is queued with its payload, after the
    pings queued before it. In a turn of the loop that reaches the drain (no close
    message recorded, no error queued) the driver writes one Pong frame
    per queued ping, with the ping's payload, in queue order and after
    whatever it has sent before, and leaves the ping queue empty. The
    callbacks of that turn are [received_message] for a complete message
    and [ponged] for the queued pongs: none is made for a ping. So when a
    running handler reads a ping frame with payload P, that turn sends
    exactly the Pong frame with payload P, makes no callback, leaves the
    ping queue empty and goes on. *)
Theorem pings_answered_in_order (n : Z) (h : t) :
  Stream.closing (stream h) = None ->
  Stream.errors (stream h) = [] ->
  (forall (fin_ : Z) (key : option bytes) (body_ : bytes) (s : Stream.t),
     let f := mkFrame fin_ OPCODE_PING key body_ in
     Stream.dispatch f s
     = Stream.Through (Stream.set_pings (Stream.pings s ++ [mkPing (Stream.payload f)]) s))
  /\
  (exists h',
    inspect n h = (inl (Next n), h')
    /\ sent (sock h')
       = sent (sock h)
         ++ map (fun p => PongFrame (ping_data p)) (Stream.pings (stream h))
    /\ Stream.pings (stream h') = []
    /\ calls h'
       = calls h
         ++ (if Stream.has_message (stream h)
             then match Stream.message (stream h) with
                  | Some m => [ReceivedMessage m]
                  | None => []
                  end
             else [])
         ++ map Ponged (Stream.pongs (stream h)))
  /\
  (Running h ->
   Stream.parser (stream h) = Stream.AtRead ->
   forall (fin_ : Z) (key : option bytes) (body_ : bytes) (b0 : byte) (b : bytes),
     let f := mkFrame fin_ OPCODE_PING key body_ in
     exists m h',
       turn (Data (b0 :: b) (Ready f)) n h = (inl (Next m), h')
       /\ sent (sock h') = sent (sock h) ++ [PongFrame (Stream.payload f)]
       /\ Stream.pings (stream h') = []
       /\ calls h' = calls h).
Proof.
  intros Hc He. split; [reflexivity|]. split.
  - exists (drained (surfaced h)). split; [apply inspect_quiet; assumption|].
    unfold drained, surfaced.
    destruct (Stream.has_message (stream h)); [|repeat split].
    destruct (Stream.message (stream h)); simpl; repeat split.
    rewrite <- app_assoc. reflexivity.
  - intros R Hp fin_ key body_ b0 b f.
    destruct (running_quiet h R) as (Q1 & Q2 & Q3 & Q4 & Q5).
    rewrite turn_ready by assumption.
    pose (x := Stream.dispatch f (stream h)).
    assert (Hx : x = Stream.Through
                       (Stream.set_pings [mkPing (Stream.payload f)] (stream h))).
    { unfold x. change (Stream.dispatch f (stream h))
        with (Stream.Through
                (Stream.set_pings (Stream.pings (stream h) ++ [mkPing (Stream.payload f)])
                   (stream h))).
      rewrite Q3. reflexivity. }
    fold x. clearbody x.
    assert (Hso : Stream.stream_of x
                  = Stream.set_pings [mkPing (Stream.payload f)] (stream h))
      by (rewrite Hx; reflexivity).
    destruct (finish_stream f x) as (F1 & F2 & F3 & F4 & F5).
    rewrite Hso in F1, F2, F3, F4, F5. simpl in F1, F2, F3, F4, F5.
    set (h1 := set_stream (snd (Stream.finish f x)) h).
    assert (H1c : Stream.closing (stream h1) = None).
    { unfold h1. simpl. rewrite F4. exact Q1. }
    assert (H1e : Stream.errors (stream h1) = []).
    { unfold h1. simpl. rewrite F5. exact Q2. }
    rewrite (inspect_quiet _ h1 H1c H1e).
    assert (Hs : surfaced h1 = h1).
    { unfold surfaced. replace (Stream.has_message (stream h1)) with false; [reflexivity|].
      symmetry. unfold Stream.has_message in *. simpl. rewrite F1. exact Q5. }
    rewrite Hs. do 2 eexists. split; [reflexivity|].
    unfold drained. simpl. rewrite F2, F3, Q4. simpl. rewrite app_nil_r.
    repeat split.
Qed.

(** C9. A close frame never queues an error: whatever its payload, the
    receiver records a close message whose reason is the whole payload
    decoded with replacement and whose code is the constructor's default,
    1000; the code in the first two bytes of the payload is not read, so
    the recorded code is the same for every payload. On a handler that has
    not closed yet the driver answers by [close(code, reason)] with the
    recorded pair: the frame composed for the answer, the one handed to
    [.single()], is [stream.close(1000, reason)] whatever that call does
    with it, and were the call to return it, that frame and no other would
    be written. As the source stands the call raises and the answer is
    not written. *)
Theorem peer_close_code_discarded
  (fin_ : Z) (key : option bytes) (body_ : bytes) (s : Stream.t) (n : Z) (h : t) :
  let f := mkFrame fin_ OPCODE_CLOSE key body_ in
  let recorded := close_with_reason (decode_utf8_replace (Stream.payload f)) in
  let h1 := set_server_terminated false
              (set_stream (Stream.stream_of (Stream.dispatch f s)) h) in
  Stream.dispatch f s = Stream.Through (Stream.set_closing (Some recorded) s)
  /\ Stream.errors (Stream.stream_of (Stream.dispatch f s)) = Stream.errors s
  /\ code recorded = DEFAULT_CLOSE_CODE
  /\ reason recorded = decode_utf8_replace (Stream.payload f)
  /\ (forall other : bytes,
       option_map code
         (Stream.closing
            (Stream.stream_of
               (Stream.dispatch (mkFrame fin_ OPCODE_CLOSE key other) s)))
       = Some DEFAULT_CLOSE_CODE)
  /\ (forall single : Wire -> M Wire,
       react_with single n h1
       = (modify (set_server_terminated true) ;;
          frame <- single (CloseFrame 1000 (decode_utf8_replace (Stream.payload f))) ;;
          write_to_connection frame ;;
          ret (Next 2)) h1)
  /\ react_with ret n h1
     = (inl (Next 2),
        sending [CloseFrame 1000 (decode_utf8_replace (Stream.payload f))]
          (set_server_terminated true h1))
  /\ react n h1 = (inr AttributeError, set_server_terminated true h1)
  /\ sent (sock (snd (react n h1))) = sent (sock h).
Proof.
  intros f recorded h1.
  assert (D : forall other,
             Stream.dispatch (mkFrame fin_ OPCODE_CLOSE key other) s
             = Stream.Through
                 (Stream.set_closing
                    (Some (close_with_reason
                             (decode_utf8_replace
                                (Stream.payload (mkFrame fin_ OPCODE_CLOSE key other)))))
                    s))
    by (intros other; apply dispatch_close; reflexivity).
  assert (G : forall single : Wire -> M Wire,
             react_with single n h1
             = (modify (set_server_terminated true) ;;
                frame <- single (CloseFrame 1000 (decode_utf8_replace (Stream.payload f))) ;;
                write_to_connection frame ;;
                ret (Next 2)) h1).
  { intros single. unfold react_with, bind at 1, get. unfold h1, f. rewrite D.
    cbn [stream set_stream set_server_terminated server_terminated
         Stream.stream_of Stream.closing Stream.set_closing negb
         code reason close_with_reason].
    unfold close_with, Stream.close, bind, get, modify.
    cbn [server_terminated set_server_terminated negb].
    change DEFAULT_CLOSE_CODE with 1000.
    match goal with
    | |- context [single ?w ?k] =>
      change (single w k)
        with (single w (set_server_terminated true
                         (set_server_terminated false
                            (set_stream (Stream.stream_of (Stream.dispatch f s)) h))));
      destruct (single w (set_server_terminated true
                         (set_server_terminated false
                            (set_stream (Stream.stream_of (Stream.dispatch f s)) h))))
        as [[w'|e'] k']
    end; reflexivity. }
  split; [apply D|].
  split; [unfold f; rewrite D; reflexivity|].
  split; [reflexivity|].
  split; [reflexivity|].
  split; [intros other; rewrite D; reflexivity|].
  split; [exact G|].
  split; [rewrite G; reflexivity|].
  assert (R : react n h1 = (inr AttributeError, set_server_terminated true h1))
    by (unfold react; rewrite G; reflexivity).
  split; [exact R|]. rewrite R. reflexivity.
Qed.

End DriverProperties.

(** * The properties at sample inputs, with the RFC 3629 codec *)

Import WebSocketHandler.



(** C7 (amended), at a text frame and at a continuation chunk whose body
    is the byte FF. *)
Lemma invalid_utf8_queues_1007_witness :
  (decode_utf8 (Stream.payload Sample.bad_text) = None
   /\ opcode Sample.bad_text = OPCODE_TEXT
   /\ Stream.incomplete Stream.init = false)
  /\ Stream.dispatch Sample.bad_text Stream.init
     = Stream.Break (Stream.add_error 1007 Stream.init)
  /\ (exists s' c',
        Stream.dispatch Sample.bad_chunk Sample.in_progress = Stream.Break s'
        /\ Stream.errors s' = [close_with_code 1007]
        /\ Stream.message s' = Some (TextMessage [72; 101; 108]%N c')).
Proof.
  destruct (invalid_utf8_queues_1007 (codec := rfc3629) Sample.bad_text Stream.init eq_refl) as [T _].
  destruct (invalid_utf8_queues_1007 (codec := rfc3629) Sample.bad_chunk Sample.in_progress eq_refl)
    as [_ C].
  split; [repeat split|].
  split; [reflexivity|].
  exact (C eq_refl _ _ eq_refl).
Defined.

(** C10, at the chunk FF with fin=1 arriving for the text "Hel" in
    progress: the message is marked complete although the frame failed. *)
Lemma failed_chunk_overwrites_completed_witness :
  (opcode Sample.bad_chunk = OPCODE_CONTINUATION
   /\ Stream.message Sample.in_progress = Some (TextMessage [72; 101; 108]%N false)
   /\ decode_utf8 (Stream.payload Sample.bad_chunk) = None)
  /\ Stream.message (Stream.stream_of (Stream.dispatch Sample.bad_chunk Sample.in_progress))
     = Some (TextMessage [72; 101; 108]%N true)
  /\ Stream.has_message
       (Stream.stream_of (Stream.dispatch Sample.bad_chunk Sample.in_progress))
     = true
  /\ Stream.message (Stream.stream_of (Stream.dispatch Sample.bad_chunk Sample.in_progress))
     <> Stream.message Sample.in_progress.
Proof.
  destruct (failed_chunk_overwrites_completed (codec := rfc3629) Sample.bad_chunk Sample.in_progress
              _ _ eq_refl eq_refl eq_refl) as (_ & M & H & D).
  split; [repeat split|].
  split; [exact M|].
  split; [exact H|].
  apply D. discriminate.
Defined.

(** C8 (amended), at a handler whose stream holds the pings "a" and "c"
    and the pong "b". *)
Lemma pings_answered_in_order_witness :
  (Stream.closing (stream Sample.pinged) = None
   /\ Stream.errors (stream Sample.pinged) = [])
  /\ Stream.pings (stream Sample.pinged) = [mkPing ["a"%byte]; mkPing ["c"%byte]]
  /\ (exists h',
       inspect 2 Sample.pinged = (inl (Next 2), h')
       /\ sent (sock h') = [PongFrame ["a"%byte]; PongFrame ["c"%byte]]
       /\ Stream.pings (stream h') = []
       /\ calls h' = [Ponged (mkPong ["b"%byte])])
  /\ (exists m h',
       turn (Sample.read Sample.ping_a) 2 (init false) = (inl (Next m), h')
       /\ sent (sock h') = [PongFrame ["a"%byte]]
       /\ Stream.pings (stream h') = []
       /\ calls h' = []).
Proof.
  destruct (pings_answered_in_order (codec := rfc3629) 2 Sample.pinged eq_refl eq_refl)
    as (_ & (h' & I & S & P & C) & _).
  destruct (pings_answered_in_order (codec := rfc3629) 2 (init false) eq_refl eq_refl)
    as (_ & _ & R).
  split; [repeat split|].
  split; [reflexivity|].
  split; [exists h'; repeat split; assumption|].
  exact (R (Running_init false) eq_refl 1 None ["a"%byte] x00 [x00]).
Defined.

(** A peer's close frame with the code 1001 (03 E9) and no reason, read by
    a fresh handler: the two code bytes end up, decoded with replacement,
    as the text of the reason; the recorded code is 1000; nothing is sent
    and no callback is made. *)
Example peer_going_away :
  _receive [Sample.read Sample.going_away] (init false)
  = Some {| stream := Stream.set_closing
                        (Some {| code := 1000; reason := [3; 65533]%N |}) Stream.init;
            sock := {| sent := []; shutdown_fails := false;
                       is_shutdown := true; is_closed := true |};
            client_terminated := true;
            server_terminated := true;
            calls := [] |}.
Proof. reflexivity. Qed.

(** On a handler that the application has closed, a stray continuation
    frame queues the record 1002 and the walk over the queue removes it
    without a Close frame: [close] does nothing a second time. *)
Example error_after_close_gets_no_frame :
  let h := snd (parser_send (Ready Sample.stray) Sample.closed_by_application) in
  Stream.closing (stream h) = None
  /\ Stream.errors (stream h) = [close_with_code 1002]
  /\ fst (inspect 2 h) = inl Leave
  /\ Stream.errors (stream (snd (inspect 2 h))) = []
  /\ sent (sock (snd (inspect 2 h))) = [].
Proof. repeat split. Qed.

(** C7 as stated fails: the text frame whose body is the byte FF, arriving
    while the text "Hel" is in progress, is stopped by the guard of the text
    branch before its body is decoded. The error queued is 1002, and no
    1007. *)
Lemma invalid_text_mid_message_queues_1002 :
  opcode Sample.bad_text = OPCODE_TEXT
  /\ decode_utf8 (Stream.payload Sample.bad_text) = None
  /\ Stream.incomplete Sample.in_progress = true
  /\ Stream.dispatch Sample.bad_text Sample.in_progress
     = Stream.Break (Stream.add_error 1002 Sample.in_progress)
  /\ Stream.errors (Stream.stream_of (Stream.dispatch Sample.bad_text Sample.in_progress))
     = [close_with_code 1002]
  /\ ~ In (close_with_code 1007)
         (Stream.errors
            (Stream.stream_of (Stream.dispatch Sample.bad_text Sample.in_progress))).
Proof.
  repeat split.
  intros [H|[]]. discriminate H.
Qed.

(** C8 as stated fails: a fragmented ping, on which the decoder raises
    [ProtocolException] with the opcode already read, is queued by the
    assembler behind the record 1002. The turn that has read it leaves the
    loop in the error branch, before the pings are answered: on a fresh
    handler and on one the application has closed alike, [_receive]
    returns with the ping still in the queue and no Pong frame sent. *)
Lemma fragmented_ping_is_never_answered :
  let r := Data [x09; x00] (Failed ProtocolException MoreSamples.fragmented_ping) in
  let queued h := Stream.pings (stream (snd (parser_send
                    (Failed ProtocolException MoreSamples.fragmented_ping) h))) in
  queued (init false) = [mkPing (Stream.payload MoreSamples.fragmented_ping)]
  /\ queued Sample.closed_by_application
     = [mkPing (Stream.payload MoreSamples.fragmented_ping)]
  /\ fst (turn r 2 Sample.closed_by_application) = inl Leave
  /\ (exists h',
        _receive (r :: [RecvError]) (init false) = Some h'
        /\ Stream.pings (stream h') = [mkPing []]
        /\ sent (sock h') = [])
  /\ (exists h',
        _receive (r :: [RecvError]) Sample.closed_by_application = Some h'
        /\ Stream.pings (stream h') = [mkPing []]
        /\ sent (sock h') = [])
  /\ ~ (exists h',
          _receive (r :: [RecvError]) (init false) = Some h'
          /\ In (PongFrame (Stream.payload MoreSamples.fragmented_ping))
                (sent (sock h'))).
Proof.
  repeat split.
  - eexists. repeat split.
  - eexists. repeat split.
  - intros (h' & E & H). injection E as <-. exact H.
Qed.


(** * Further properties of the stream *)

Section StreamInvariants.

Context {codec : Utf8Codec}.

(** The dispatch of a frame reads the stream only through its message
    slot when it decides what the slot holds next. *)
Lemma dispatch_message_congr (f : Frame) (s s' : Stream.t) :
  Stream.message s = Stream.message s' ->
  Stream.message (Stream.stream_of (Stream.dispatch f s))
  = Stream.message (Stream.stream_of (Stream.dispatch f s')).
Proof.
  intros H. unfold Stream.dispatch, Stream.incomplete. rewrite <- H.
  destruct (opcode f =? OPCODE_TEXT).
  { destruct (Stream.message s) as [m|] eqn:E; simpl.
    - destruct (negb (message_completed m)); simpl; [congruence|].
      destruct (decode_utf8 (Stream.payload f)); simpl; congruence.
    - destruct (decode_utf8 (Stream.payload f)); simpl; congruence. }
  destruct (opcode f =? OPCODE_BINARY); [reflexivity|].
  destruct (opcode f =? OPCODE_CONTINUATION).
  { destruct (Stream.message s) as [m|] eqn:E; simpl; [|congruence].
    destruct m as [t c|d c]; simpl; [|reflexivity].
    destruct (decode_utf8 (Stream.payload f)); reflexivity. }
  destruct (opcode f =? OPCODE_CLOSE); [simpl; congruence|].
  destruct (opcode f =? OPCODE_PING); [simpl; congruence|].
  destruct (opcode f =? OPCODE_PONG); simpl; congruence.
Qed.

Lemma dispatch_control_message (f : Frame) (s : Stream.t) :
  is_data f = false ->
  Stream.message (Stream.stream_of (Stream.dispatch f s)) = Stream.message s.
Proof.
  unfold is_data. intros H.
  apply orb_false_iff in H. destruct H as [H H3].
  apply orb_false_iff in H. destruct H as [H1 H2].
  unfold Stream.dispatch. rewrite H1, H2, H3.
  destruct (opcode f =? OPCODE_CLOSE); [reflexivity|].
  destruct (opcode f =? OPCODE_PING); [reflexivity|].
  destruct (opcode f =? OPCODE_PONG); reflexivity.
Qed.

(** X1. Control frames and frames of an unsupported type, wherever they
    stand among the frames of a run, have no part in what the message slot
    holds after the run: it is what the text, binary and continuation
    frames alone would have left, and so is [has_message]. *)
Theorem control_frames_do_not_disturb_reassembly (fs : list Frame) (s : Stream.t) :
  Stream.message (Stream.feed fs s)
  = Stream.message (Stream.feed (filter is_data fs) s)
  /\ Stream.has_message (Stream.feed fs s)
     = Stream.has_message (Stream.feed (filter is_data fs) s).
Proof.
  assert (G : forall s s', Stream.message s = Stream.message s' ->
              Stream.message (Stream.feed fs s)
              = Stream.message (Stream.feed (filter is_data fs) s')).
  { induction fs as [|f fs IH]; intros s1 s2 H; [exact H|].
    simpl filter. destruct (is_data f) eqn:D.
    - rewrite !feed_cons. apply IH. apply dispatch_message_congr. exact H.
    - rewrite feed_cons. apply IH.
      rewrite (dispatch_control_message f s1 D). exact H. }
  split; [apply G; reflexivity|].
  unfold Stream.has_message. rewrite (G s s eq_refl). reflexivity.
Qed.

(** What one frame adds to the error queue. *)
Lemma dispatch_errors (f : Frame) (s : Stream.t) :
  exists new,
    Stream.errors (Stream.stream_of (Stream.dispatch f s)) = Stream.errors s ++ new
    /\ (length new <= 1)%nat
    /\ Forall (fun e => reason e = [] /\ dispatch_code (code e) = true) new.
Proof.
  assert (N : exists new : list CloseControlMessage,
            Stream.errors s = Stream.errors s ++ new /\ (length new <= 1)%nat
            /\ Forall (fun e => reason e = [] /\ dispatch_code (code e) = true) new).
  { exists []. rewrite app_nil_r. repeat split; auto. }
  assert (A : forall c, dispatch_code c = true ->
            exists new : list CloseControlMessage,
              Stream.errors s ++ [close_with_code c] = Stream.errors s ++ new
              /\ (length new <= 1)%nat
              /\ Forall (fun e => reason e = [] /\ dispatch_code (code e) = true) new).
  { intros c Hc. exists [close_with_code c]. repeat split; auto. }
  unfold Stream.dispatch.
  destruct (opcode f =? OPCODE_TEXT).
  { destruct (Stream.incomplete s); [apply A; reflexivity|].
    destruct (decode_utf8 (Stream.payload f)); [exact N|apply A; reflexivity]. }
  destruct (opcode f =? OPCODE_BINARY); [exact N|].
  destruct (opcode f =? OPCODE_CONTINUATION).
  { destruct (Stream.message s) as [[t c|d c]|]; simpl;
      [|exact N|apply A; reflexivity].
    destruct (decode_utf8 (Stream.payload f)); [exact N|apply A; reflexivity]. }
  destruct (opcode f =? OPCODE_CLOSE); [exact N|].
  destruct (opcode f =? OPCODE_PING); [exact N|].
  destruct (opcode f =? OPCODE_PONG); [exact N|apply A; reflexivity].
Qed.

(** X2. The receiver never drops or reorders a queued error: after a run of
    frames the queue is the old queue followed by at most one new record
    per frame, each with an empty reason and one of the codes 1002, 1003
    and 1007. *)
Theorem error_queue_only_grows (fs : list Frame) (s : Stream.t) :
  exists new,
    Stream.errors (Stream.feed fs s) = Stream.errors s ++ new
    /\ (length new <= length fs)%nat
    /\ Forall (fun e => reason e = [] /\ dispatch_code (code e) = true) new.
Proof.
  revert s. induction fs as [|f fs IH]; intros s.
  - exists []. rewrite app_nil_r. repeat split; auto.
  - rewrite feed_cons.
    destruct (dispatch_errors f s) as (n1 & E1 & L1 & F1).
    destruct (IH (Stream.stream_of (Stream.dispatch f s))) as (n2 & E2 & L2 & F2).
    exists (n1 ++ n2). rewrite E2, E1, app_assoc. repeat split.
    + rewrite length_app. simpl. lia.
    + apply Forall_app. auto.
Qed.

Ltac by_opcode f :=
  unfold Stream.dispatch, is_ping, is_pong, is_close;
  destruct (Z.eqb_spec (opcode f) OPCODE_TEXT) as [E|_];
    [try rewrite E; simpl
    |destruct (Z.eqb_spec (opcode f) OPCODE_BINARY) as [E|_];
      [try rewrite E; simpl
      |destruct (Z.eqb_spec (opcode f) OPCODE_CONTINUATION) as [E|_];
        [try rewrite E; simpl
        |destruct (opcode f =? OPCODE_CLOSE) eqn:E8;
          [apply Z.eqb_eq in E8; try rewrite E8; simpl
          |destruct (opcode f =? OPCODE_PING) eqn:E9;
            [apply Z.eqb_eq in E9; try rewrite E9; simpl
            |destruct (opcode f =? OPCODE_PONG) eqn:E10; simpl]]]]].

Ltac dispatch_cases :=
  repeat (simpl;
          match goal with
          | |- context [if ?b then _ else _] => destruct b
          | |- context [match ?x with _ => _ end] => destruct x
          end);
  simpl; rewrite ?app_nil_r; try reflexivity.

Lemma dispatch_pings (f : Frame) (s : Stream.t) :
  Stream.pings (Stream.stream_of (Stream.dispatch f s))
  = Stream.pings s ++ (if is_ping f then [mkPing (Stream.payload f)] else []).
Proof. by_opcode f; dispatch_cases. Qed.

Lemma dispatch_pongs (f : Frame) (s : Stream.t) :
  Stream.pongs (Stream.stream_of (Stream.dispatch f s))
  = Stream.pongs s ++ (if is_pong f then [mkPong (Stream.payload f)] else []).
Proof. by_opcode f; dispatch_cases. Qed.

Lemma dispatch_closing (f : Frame) (s : Stream.t) :
  Stream.closing (Stream.stream_of (Stream.dispatch f s))
  = if is_close f
    then Some (close_with_reason (decode_utf8_replace (Stream.payload f)))
    else Stream.closing s.
Proof. by_opcode f; dispatch_cases. Qed.

(** X3. Pings and pongs are queued in the order their frames arrive, each
    with the payload of its frame, behind what the queues held; no other
    frame adds to a queue, takes from it or reorders it. *)
Theorem control_queues_keep_arrival_order (fs : list Frame) (s : Stream.t) :
  Stream.pings (Stream.feed fs s)
  = Stream.pings s ++ map (fun f => mkPing (Stream.payload f)) (filter is_ping fs)
  /\ Stream.pongs (Stream.feed fs s)
     = Stream.pongs s ++ map (fun f => mkPong (Stream.payload f)) (filter is_pong fs).
Proof.
  revert s. induction fs as [|f fs IH]; intros s.
  - simpl. rewrite !app_nil_r. auto.
  - rewrite feed_cons.
    destruct (IH (Stream.stream_of (Stream.dispatch f s))) as [P Q].
    rewrite P, Q, dispatch_pings, dispatch_pongs. simpl filter.
    destruct (is_ping f); destruct (is_pong f); simpl;
      rewrite <- ?app_assoc, ?app_nil_r; auto.
Qed.

(** X4. The close slot holds what the last close frame of a run gave: the
    whole payload of that frame decoded with replacement, under the
    default code. An earlier close message is overwritten by a later close
    frame and by nothing else; without a close frame in the run the slot
    is as it was, so a recorded close is never cleared. *)
Theorem last_close_frame_is_recorded (fs : list Frame) (s : Stream.t) :
  Stream.closing (Stream.feed fs s)
  = match find is_close (rev fs) with
    | Some f => Some (close_with_reason (decode_utf8_replace (Stream.payload f)))
    | None => Stream.closing s
    end.
Proof.
  induction fs as [|f fs IH] using rev_ind; [reflexivity|].
  rewrite feed_app, rev_app_distr. simpl rev. simpl app.
  unfold Stream.feed at 1. simpl fold_left.
  rewrite dispatch_closing. simpl find.
  destruct (is_close f); [reflexivity|exact IH].
Qed.

End StreamInvariants.

(** * Further properties of the driver *)

Section DriverInvariants.

Context {codec : Utf8Codec}.

Lemma drained_idle (h : t) :
  Stream.pings (stream h) = [] -> Stream.pongs (stream h) = [] -> drained h = h.
Proof.
  destruct h as [[m pi po cl er pa] [ws f sh c] ct st cs]. simpl.
  intros -> ->. unfold drained, sending, calling, set_stream, set_sock, set_calls.
  simpl. rewrite !app_nil_r. reflexivity.
Qed.

Lemma surfaced_idle (h : t) :
  Stream.has_message (stream h) = false -> surfaced h = h.
Proof. intros H. unfold surfaced. rewrite H. reflexivity. Qed.

Lemma running_flags (h : t) : Running h -> client_terminated h = false.
Proof.
  induction 1 as [fails | c r h R IH | r n m h h' R IH T].
  - reflexivity.
  - destruct (server_terminated h) eqn:Hs.
    + rewrite (close_again c r h Hs). exact IH.
    + rewrite (close_first c r h Hs). exact IH.
  - destruct (turn_goes_on r n m h h' T) as (s1 & -> & _).
    unfold drained, surfaced.
    destruct (Stream.has_message (stream (set_stream s1 h))); [|exact IH].
    destruct (Stream.message (stream (set_stream s1 h))); exact IH.
Qed.

Lemma running_not_terminated (h : t) : Running h -> terminated h = false.
Proof. intros R. unfold terminated. rewrite (running_flags h R). reflexivity. Qed.

Lemma loop_goes_on (r : Recv) (rest : list Recv) (n m : Z) (h h' : t) :
  terminated h = false ->
  turn r n h = (inl (Next m), h') ->
  loop (r :: rest) n h = loop rest m h'.
Proof. intros Ht T. simpl. rewrite Ht, T. reflexivity. Qed.

(** A turn that finds a close message or a queued error is the last one;
    it makes no callback and writes nothing. *)
Lemma inspect_leaves (n : Z) (h : t) :
  Stream.closing (stream h) <> None \/ Stream.errors (stream h) <> [] ->
  exists x h',
    inspect n h = (x, h')
    /\ (forall m, x <> inl (Next m))
    /\ calls h' = calls h
    /\ sock h' = sock h
    /\ Stream.closing (stream h') = Stream.closing (stream h).
Proof.
  intros H.
  destruct (Stream.closing (stream h)) as [c|] eqn:Hc;
    destruct (server_terminated h) eqn:Hs.
  - rewrite (inspect_closing_second n h c Hc Hs).
    do 2 eexists. split; [reflexivity|]. repeat split; auto. discriminate.
  - rewrite (inspect_closing_first n h c Hc Hs).
    do 2 eexists. split; [reflexivity|]. repeat split; auto. discriminate.
  - destruct H as [H|H]; [contradiction|].
    rewrite (inspect_errors_closed n h Hc H Hs).
    do 2 eexists. split; [reflexivity|]. repeat split; auto. discriminate.
  - destruct H as [H|H]; [contradiction|].
    rewrite (inspect_errors_first n h Hc H Hs).
    do 2 eexists. split; [reflexivity|]. repeat split; auto. discriminate.
Qed.

(** What the inspection does to the connection: it appends pong frames
    and touches nothing else of the socket. *)
Lemma inspect_socket (n : Z) (h : t) :
  exists ds,
    sent (sock (snd (inspect n h))) = sent (sock h) ++ map PongFrame ds
    /\ shutdown_fails (sock (snd (inspect n h))) = shutdown_fails (sock h)
    /\ is_shutdown (sock (snd (inspect n h))) = is_shutdown (sock h)
    /\ is_closed (sock (snd (inspect n h))) = is_closed (sock h).
Proof.
  destruct (Stream.closing (stream h)) as [c|] eqn:Hc.
  - destruct (inspect_leaves n h) as (x & h' & E & _ & _ & K & _).
    { left. rewrite Hc. discriminate. }
    rewrite E. simpl snd. rewrite K.
    exists []. simpl. rewrite app_nil_r. auto.
  - destruct (Stream.errors (stream h)) as [|e l] eqn:He.
    + rewrite (inspect_quiet n h Hc He). simpl snd.
      exists (map ping_data (Stream.pings (stream (surfaced h)))).
      rewrite map_map. unfold drained. simpl.
      unfold surfaced. destruct (Stream.has_message (stream h)); [|auto].
      destruct (Stream.message (stream h)); simpl; auto.
    + destruct (inspect_leaves n h) as (x & h' & E & _ & _ & K & _).
      { right. rewrite He. discriminate. }
      rewrite E. simpl snd. rewrite K.
      exists []. simpl. rewrite app_nil_r. auto.
Qed.

Lemma turn_socket (r : Recv) (n : Z) (h : t) :
  exists ds,
    sent (sock (snd (turn r n h))) = sent (sock h) ++ map PongFrame ds
    /\ shutdown_fails (sock (snd (turn r n h))) = shutdown_fails (sock h)
    /\ is_shutdown (sock (snd (turn r n h))) = is_shutdown (sock h)
    /\ is_closed (sock (snd (turn r n h))) = is_closed (sock h).
Proof.
  assert (Z0 : exists ds : list bytes,
            sent (sock h) = sent (sock h) ++ map PongFrame ds
            /\ shutdown_fails (sock h) = shutdown_fails (sock h)
            /\ is_shutdown (sock h) = is_shutdown (sock h)
            /\ is_closed (sock h) = is_closed (sock h)).
  { exists []. simpl. rewrite app_nil_r. auto. }
  destruct r as [b d|]; [|exact Z0]. unfold turn.
  destruct (negb (truthy b) && (n >? 0)); [exact Z0|].
  unfold bind, parser_send.
  destruct (Stream.receiver d (stream h)) as [[n1|e] s1]; [|exact Z0].
  exact (inspect_socket n1 (set_stream s1 h)).
Qed.

Lemma loop_socket (script : list Recv) : forall (n : Z) (h : t) x h',
  loop script n h = Some (x, h') ->
  exists ds,
    sent (sock h') = sent (sock h) ++ map PongFrame ds
    /\ shutdown_fails (sock h') = shutdown_fails (sock h)
    /\ is_shutdown (sock h') = is_shutdown (sock h)
    /\ is_closed (sock h') = is_closed (sock h).
Proof.
  induction script as [|r rest IH]; intros n h x h' H; simpl in H.
  - destruct (terminated h); [|discriminate]. injection H as _ <-.
    exists []. simpl. rewrite app_nil_r. auto.
  - destruct (terminated h).
    { injection H as _ <-. exists []. simpl. rewrite app_nil_r. auto. }
    destruct (turn_socket r n h) as (d1 & S1 & F1 & U1 & C1).
    destruct (turn r n h) as [[[n1|]|e] h1]; simpl in S1, F1, U1, C1.
    + destruct (IH n1 h1 x h' H) as (d2 & S2 & F2 & U2 & C2).
      exists (d1 ++ d2). rewrite S2, S1, map_app, app_assoc.
      repeat split; congruence.
    + injection H as _ <-. exists d1. auto.
    + injection H as _ <-. exists d1. auto.
Qed.

Lemma teardown_socket (h : t) :
  sent (sock (snd (teardown h))) = sent (sock h)
  /\ shutdown_fails (sock (snd (teardown h))) = shutdown_fails (sock h)
  /\ is_shutdown (sock (snd (teardown h)))
     = (if shutdown_fails (sock h) then is_shutdown (sock h) else true)
  /\ is_closed (sock (snd (teardown h)))
     = (if shutdown_fails (sock h) then is_closed (sock h) else true).
Proof.
  unfold teardown, bind, get, modify. simpl.
  destruct (Stream.closing (stream h)); simpl;
    destruct (shutdown_fails (sock h)) eqn:E; simpl; rewrite ?E; auto.
Qed.

(** X5. Every frame that [_receive] writes is a Pong frame: what it has
    sent when it returns is what had been sent before, followed by Pong
    frames only. No run of the read loop puts a Close frame on the
    wire. *)
Theorem receive_writes_only_pongs (script : list Recv) (h h' : t) :
  _receive script h = Some h' ->
  exists ds, sent (sock h') = sent (sock h) ++ map PongFrame ds.
Proof.
  unfold _receive. destruct (loop script 2 h) as [[x h1]|] eqn:L; [|discriminate].
  intros H. injection H as <-.
  destruct (loop_socket script 2 h x h1 L) as (ds & S & _).
  destruct (teardown_socket h1) as (T & _).
  exists ds. rewrite T. exact S.
Qed.

(** X6. Whether the socket ends up closed is decided by [shutdown] alone:
    when [_receive] returns, the socket is shut down and closed if
    [shutdown] succeeds, and if [shutdown] raises, [close] is never called
    and the socket is left exactly as open as it was. *)
Theorem socket_closed_only_if_shutdown_succeeds (script : list Recv) (h h' : t) :
  _receive script h = Some h' ->
  is_shutdown (sock h')
  = (if shutdown_fails (sock h) then is_shutdown (sock h) else true)
  /\ is_closed (sock h')
     = (if shutdown_fails (sock h) then is_closed (sock h) else true).
Proof.
  unfold _receive. destruct (loop script 2 h) as [[x h1]|] eqn:L; [|discriminate].
  intros H. injection H as <-.
  destruct (loop_socket script 2 h x h1 L) as (ds & _ & F & U & C).
  destruct (teardown_socket h1) as (_ & _ & TU & TC).
  rewrite TU, TC, F, U, C. auto.
Qed.

(** X7. Once [_receive] has returned, [close] with any arguments returns
    normally and changes nothing: it writes nothing to the torn-down
    connection and raises nothing. *)
Theorem close_after_receive_is_void (script : list Recv) (h h' : t) (c : Z) (r : ustring) :
  _receive script h = Some h' ->
  close c r h' = (inl tt, h').
Proof.
  unfold _receive. destruct (loop script 2 h) as [[x h1]|]; [|discriminate].
  intros H. injection H as <-.
  apply close_again.
  destruct (teardown_result h1) as (T & _).
  unfold terminated in T. apply andb_true_iff in T. apply T.
Qed.

(** The turn that follows an alignment [yield 0]. *)
Lemma turn_realigns (h : t) (d : Decode) :
  Running h ->
  Stream.parser (stream h) = Stream.AtAlign ->
  turn (Data [] d) 0 h
  = (inl (Next FIRST_REQUEST),
     set_stream (Stream.set_parser Stream.AtRead (stream h)) h).
Proof.
  intros R Hp.
  destruct (running_quiet h R) as (Q1 & Q2 & Q3 & Q4 & Q5).
  unfold turn, bind, parser_send, Stream.receiver. simpl. rewrite Hp.
  set (h1 := set_stream (Stream.set_parser Stream.AtRead (stream h)) h).
  rewrite (inspect_quiet FIRST_REQUEST h1 Q1 Q2).
  rewrite (surfaced_idle h1 Q5), (drained_idle h1 Q3 Q4). reflexivity.
Qed.

(** X8. A read that returns no bytes ends the loop exactly when bytes had
    been asked for. On a running handler, with [next_size] positive the
    loop is left at once and the handler is untouched, whatever would have
    followed; with the receiver suspended at the alignment [yield 0] and
    [next_size] zero, the read of no bytes is no end of stream: the loop
    goes on to the next read with the first request of a fresh decoder,
    nothing is dispatched, sent or called back, and only the receiver's
    resume point has moved. *)
Theorem empty_read_ends_loop_unless_aligning (h : t) (d : Decode) (rest : list Recv) :
  Running h ->
  (forall n, n > 0 -> loop (Data [] d :: rest) n h = Some (inl tt, h))
  /\
  (Stream.parser (stream h) = Stream.AtAlign ->
   loop (Data [] d :: rest) 0 h
   = loop rest FIRST_REQUEST
       (set_stream (Stream.set_parser Stream.AtRead (stream h)) h)).
Proof.
  intros R. pose proof (running_not_terminated h R) as Ht.
  split.
  - intros n Hn. simpl. rewrite Ht.
    replace (n >? 0) with true by (symmetry; apply Z.gtb_lt; lia).
    reflexivity.
  - intros Hp. apply loop_goes_on; [exact Ht|].
    apply turn_realigns; assumption.
Qed.

(** A [break] inside the dispatch has always queued an error first. *)
Lemma break_queues_error (f : Frame) (s s' : Stream.t) :
  Stream.dispatch f s = Stream.Break s' ->
  exists c, Stream.errors s' = Stream.errors s ++ [close_with_code c].
Proof.
  unfold Stream.dispatch.
  repeat match goal with
         | |- context [if ?b then _ else _] => destruct b
         | |- context [match ?x with _ => _ end] => destruct x
         end;
    simpl; intros H; try discriminate; injection H as <-; eexists; reflexivity.
Qed.

Lemma drained_surfaced_parser (h : t) :
  Stream.parser (stream (drained (surfaced h))) = Stream.parser (stream h).
Proof.
  unfold drained, surfaced.
  destruct (Stream.has_message (stream h)); [|reflexivity].
  destruct (Stream.message (stream h)); reflexivity.
Qed.

Lemma drained_surfaced_effects (h : t) :
  sent (sock (drained (surfaced h)))
  = sent (sock h) ++ map (fun p => PongFrame (ping_data p)) (Stream.pings (stream h))
  /\ calls (drained (surfaced h))
     = calls h
       ++ (if Stream.has_message (stream h)
           then match Stream.message (stream h) with
                | Some m => [ReceivedMessage m]
                | None => []
                end
           else [])
       ++ map Ponged (Stream.pongs (stream h))
  /\ Stream.message (stream (drained (surfaced h)))
     = (if Stream.has_message (stream h) then None else Stream.message (stream h)).
Proof.
  unfold drained, surfaced.
  destruct (Stream.has_message (stream h)); [|repeat split].
  destruct (Stream.message (stream h)); simpl; repeat split.
  rewrite <- app_assoc. reflexivity.
Qed.

(** The reads that take in a frame which leaves no close message and no
    error behind: the loop goes on after them. *)
Lemma frame_step (h : t) (f : Frame) (b0 : byte) (b : bytes)
  (rest : list Recv) (n : Z) :
  Running h ->
  Stream.parser (stream h) = Stream.AtRead ->
  let s1 := Stream.stream_of (Stream.dispatch f (stream h)) in
  Stream.closing s1 = None ->
  Stream.errors s1 = [] ->
  exists n' h',
    loop (reads b0 b f ++ rest) n h = loop rest n' h'
    /\ Running h'
    /\ Stream.parser (stream h') = Stream.AtRead
    /\ sent (sock h')
       = sent (sock h) ++ map (fun p => PongFrame (ping_data p)) (Stream.pings s1)
    /\ calls h'
       = calls h
         ++ (if Stream.has_message s1
             then match Stream.message s1 with
                  | Some m => [ReceivedMessage m]
                  | None => []
                  end
             else [])
         ++ map Ponged (Stream.pongs s1)
    /\ Stream.message (stream h')
       = (if Stream.has_message s1 then None else Stream.message s1).
Proof.
  intros R Hp s1 Hc He.
  pose proof (running_not_terminated h R) as Ht.
  destruct (running_quiet h R) as (_ & Q2 & _).
  pose (x := Stream.dispatch f (stream h)).
  assert (Hx : exists s, x = Stream.Through s).
  { destruct x as [s|s] eqn:E; [|eexists; reflexivity].
    destruct (break_queues_error f (stream h) s E) as [c Hb].
    exfalso. unfold s1 in He. fold x in He. rewrite E in He. simpl in He.
    rewrite He, Q2 in Hb. discriminate. }
  destruct (finish_stream f x) as (F1 & F2 & F3 & F4 & F5).
  fold x in s1. fold s1 in F1, F2, F3, F4, F5.
  set (h1 := set_stream (snd (Stream.finish f x)) h).
  assert (T : turn (Data (b0 :: b) (Ready f)) n h
              = (inl (Next (fst (Stream.finish f x))), drained (surfaced h1))).
  { rewrite turn_ready by assumption. fold x. fold h1.
    apply inspect_quiet; unfold h1; simpl; congruence. }
  pose proof (Running_turn _ _ _ _ _ R T) as R2.
  assert (D : sent (sock (drained (surfaced h1)))
              = sent (sock h)
                ++ map (fun p => PongFrame (ping_data p)) (Stream.pings s1)
              /\ calls (drained (surfaced h1))
                 = calls h
                   ++ (if Stream.has_message s1
                       then match Stream.message s1 with
                            | Some m => [ReceivedMessage m]
                            | None => []
                            end
                       else [])
                   ++ map Ponged (Stream.pongs s1)
              /\ Stream.message (stream (drained (surfaced h1)))
                 = (if Stream.has_message s1 then None else Stream.message s1)).
  { unfold Stream.has_message. rewrite <- F1, <- F2, <- F3.
    exact (drained_surfaced_effects h1). }
  assert (P : Stream.parser (stream (drained (surfaced h1)))
              = Stream.parser (snd (Stream.finish f x)))
    by apply drained_surfaced_parser.
  unfold reads.
  destruct Hx as [s Hs].
  destruct (truthy (Stream.payload f)) eqn:Tr.
  - exists (fst (Stream.finish f x)), (drained (surfaced h1)).
    split; [simpl app; apply loop_goes_on; assumption|].
    split; [exact R2|]. split; [|exact D].
    rewrite P, Hs. simpl. rewrite Tr. reflexivity.
  - assert (Pa : Stream.parser (stream (drained (surfaced h1))) = Stream.AtAlign).
    { rewrite P, Hs. simpl. rewrite Tr. reflexivity. }
    assert (N0 : fst (Stream.finish f x) = 0).
    { rewrite Hs. simpl. rewrite Tr. reflexivity. }
    pose proof (turn_realigns _ (NeedBytes FIRST_REQUEST) R2 Pa) as T2.
    exists FIRST_REQUEST,
      (set_stream (Stream.set_parser Stream.AtRead (stream (drained (surfaced h1))))
         (drained (surfaced h1))).
    split.
    { simpl app. rewrite (loop_goes_on _ _ _ _ _ _ Ht T), N0.
      apply loop_goes_on; [apply running_not_terminated; exact R2|exact T2]. }
    split; [exact (Running_turn _ _ _ _ _ R2 T2)|].
    split; [reflexivity|]. exact D.
Qed.

(** The same for a frame that puts a message into the slot. *)
Lemma message_frame_step (h : t) (f : Frame) (m : Message) (b0 : byte) (b : bytes)
  (rest : list Recv) (n : Z) :
  Running h ->
  Stream.parser (stream h) = Stream.AtRead ->
  Stream.dispatch f (stream h)
  = Stream.Through (Stream.set_message (Some m) (stream h)) ->
  exists n' h',
    loop (reads b0 b f ++ rest) n h = loop rest n' h'
    /\ Running h'
    /\ Stream.parser (stream h') = Stream.AtRead
    /\ sent (sock h') = sent (sock h)
    /\ calls h' = calls h ++ (if message_completed m then [ReceivedMessage m] else [])
    /\ Stream.message (stream h') = (if message_completed m then None else Some m).
Proof.
  intros R Hp Hd.
  destruct (running_quiet h R) as (Q1 & Q2 & Q3 & Q4 & _).
  destruct (frame_step h f b0 b rest n R Hp) as (n' & h' & L & R' & P & S & C & M).
  { rewrite Hd. exact Q1. }
  { rewrite Hd. exact Q2. }
  rewrite Hd in S, C, M. unfold Stream.has_message in C, M. simpl in S, C, M.
  rewrite Q3 in S. rewrite Q4 in C. simpl in S, C. rewrite app_nil_r in S, C.
  exists n', h'. repeat split; assumption.
Qed.

Lemma binary_fragments_loop (b0 : byte) (b : bytes) (rest : list Recv)
  (middle : list Frame) : forall (h : t) (d : bytes) (n : Z),
  Running h ->
  Stream.parser (stream h) = Stream.AtRead ->
  Stream.message (stream h) = Some (BinaryMessage d false) ->
  Forall nonfinal_continuation middle ->
  exists n' h',
    loop (flat_map (reads b0 b) middle ++ rest) n h = loop rest n' h'
    /\ Running h'
    /\ Stream.parser (stream h') = Stream.AtRead
    /\ sent (sock h') = sent (sock h)
    /\ calls h' = calls h
    /\ Stream.message (stream h')
       = Some (BinaryMessage (d ++ concat (map Stream.payload middle)) false).
Proof.
  induction middle as [|f fs IH]; intros h d n R Hp Hm Hfs.
  - exists n, h. simpl. rewrite app_nil_r. repeat split; auto.
  - inversion Hfs as [|? ? [Hop Hfin] Hrest]; subst.
    destruct (message_frame_step h f (BinaryMessage (d ++ Stream.payload f) false)
                b0 b (flat_map (reads b0 b) fs ++ rest) n R Hp)
      as (n1 & h1 & L1 & R1 & P1 & S1 & C1 & M1).
    { rewrite (dispatch_continuation_binary f _ d false Hop Hm), Hfin. reflexivity. }
    simpl in C1, M1. rewrite app_nil_r in C1.
    destruct (IH h1 (d ++ Stream.payload f) n1 R1 P1 M1 Hrest)
      as (n2 & h2 & L2 & R2 & P2 & S2 & C2 & M2).
    exists n2, h2.
    change (flat_map (reads b0 b) (f :: fs))
      with (reads b0 b f ++ flat_map (reads b0 b) fs).
    rewrite <- app_assoc, L1, L2.
    repeat split; try congruence.
    rewrite M2. simpl. rewrite app_assoc. reflexivity.
Qed.

Lemma text_fragments_loop (b0 : byte) (b : bytes) (rest : list Recv)
  (middle : list Frame) : forall (h : t) (t0 : ustring) (cs : list ustring) (n : Z),
  Running h ->
  Stream.parser (stream h) = Stream.AtRead ->
  Stream.message (stream h) = Some (TextMessage t0 false) ->
  Forall nonfinal_continuation middle ->
  decode_all (map Stream.payload middle) = Some cs ->
  exists n' h',
    loop (flat_map (reads b0 b) middle ++ rest) n h = loop rest n' h'
    /\ Running h'
    /\ Stream.parser (stream h') = Stream.AtRead
    /\ sent (sock h') = sent (sock h)
    /\ calls h' = calls h
    /\ Stream.message (stream h') = Some (TextMessage (t0 ++ concat cs) false).
Proof.
  induction middle as [|f fs IH]; intros h t0 cs n R Hp Hm Hfs Hd.
  - simpl in Hd. injection Hd as <-. exists n, h. simpl. rewrite app_nil_r.
    repeat split; auto.
  - inversion Hfs as [|? ? [Hop Hfin] Hrest]; subst.
    simpl in Hd.
    destruct (decode_utf8 (Stream.payload f)) as [u|] eqn:Eu; [|discriminate].
    destruct (decode_all (map Stream.payload fs)) as [us|] eqn:Eus; [|discriminate].
    injection Hd as <-.
    destruct (message_frame_step h f (TextMessage (t0 ++ u) false)
                b0 b (flat_map (reads b0 b) fs ++ rest) n R Hp)
      as (n1 & h1 & L1 & R1 & P1 & S1 & C1 & M1).
    { rewrite (dispatch_continuation_text f _ t0 false Hop Hm), Eu, Hfin. reflexivity. }
    simpl in C1, M1. rewrite app_nil_r in C1.
    destruct (IH h1 (t0 ++ u) us n1 R1 P1 M1 Hrest eq_refl)
      as (n2 & h2 & L2 & R2 & P2 & S2 & C2 & M2).
    exists n2, h2.
    change (flat_map (reads b0 b) (f :: fs))
      with (reads b0 b f ++ flat_map (reads b0 b) fs).
    rewrite <- app_assoc, L1, L2.
    repeat split; try congruence.
    rewrite M2. simpl. rewrite app_assoc. reflexivity.
Qed.

(** A read on which the decoder only asks for more bytes, the header of a
    frame or a part of its body, leaves a running handler as it is and
    sets the size of the next read. *)
Lemma partial_read_step (c0 : byte) (c : bytes) (k m : Z) (h : t) :
  Running h ->
  Stream.parser (stream h) = Stream.AtRead ->
  turn (Data (c0 :: c) (NeedBytes k)) m h = (inl (Next k), h).
Proof.
  intros R Hp. destruct (running_quiet h R) as (Q1 & Q2 & Q3 & Q4 & Q5).
  assert (E : set_stream (stream h) h = h) by (destruct h; reflexivity).
  unfold turn, bind, parser_send, Stream.receiver. simpl. rewrite Hp, E.
  rewrite (inspect_quiet k h Q1 Q2), (surfaced_idle h Q5), (drained_idle h Q3 Q4).
  reflexivity.
Qed.

(** X9. A fragmented message reaches the application whole and once. A
    running handler reads a first frame with fin=0, continuation frames
    with fin=0 and a last one with fin=1, each through the read on which
    the decoder completes it and the alignment read its empty payload may
    call for. If the first frame is binary, or if it is a text frame that
    arrives while no incomplete message is in progress and each fragment
    decodes on its own, the loop goes on after them, has written nothing,
    has made one callback, [received_message] with the completed message,
    on the last frame and not before, and has cleared the slot. The
    message is the concatenation of the payloads for a binary first frame
    and of the decoded chunks for a text one. The reads that come before a
    frame is complete are left out of the script, for such a read changes
    nothing on a running handler but the size of the next read. *)
Theorem fragmented_message_delivered_once
  (h : t) (first : Frame) (middle : list Frame) (last : Frame)
  (b0 : byte) (b : bytes) (rest : list Recv) (n : Z) :
  Running h ->
  Stream.parser (stream h) = Stream.AtRead ->
  fin first = 0 ->
  Forall nonfinal_continuation middle ->
  final_continuation last ->
  let frames := first :: middle ++ [last] in
  (opcode first = OPCODE_BINARY ->
   exists n' h',
     loop (flat_map (reads b0 b) frames ++ rest) n h = loop rest n' h'
     /\ Running h'
     /\ sent (sock h') = sent (sock h)
     /\ calls h'
        = calls h
          ++ [ReceivedMessage (BinaryMessage (concat (map Stream.payload frames)) true)]
     /\ Stream.message (stream h') = None)
  /\
  (opcode first = OPCODE_TEXT ->
   Stream.incomplete (stream h) = false ->
   forall chunks, decode_all (map Stream.payload frames) = Some chunks ->
   exists n' h',
     loop (flat_map (reads b0 b) frames ++ rest) n h = loop rest n' h'
     /\ Running h'
     /\ sent (sock h') = sent (sock h)
     /\ calls h' = calls h ++ [ReceivedMessage (TextMessage (concat chunks) true)]
     /\ Stream.message (stream h') = None)
  /\
  (forall (c0 : byte) (c : bytes) (k m : Z) (h0 : t) (script : list Recv),
     Running h0 ->
     Stream.parser (stream h0) = Stream.AtRead ->
     loop (Data (c0 :: c) (NeedBytes k) :: script) m h0 = loop script k h0).
Proof.
  intros R Hp Hfin Hmid [Hlop Hlfin] frames. subst frames.
  assert (Hreads : flat_map (reads b0 b) (first :: middle ++ [last]) ++ rest
                   = reads b0 b first
                     ++ (flat_map (reads b0 b) middle ++ (reads b0 b last ++ rest))).
  { change (flat_map (reads b0 b) (first :: middle ++ [last]))
      with (reads b0 b first ++ flat_map (reads b0 b) (middle ++ [last])).
    rewrite flat_map_app.
    change (flat_map (reads b0 b) [last]) with (reads b0 b last ++ []).
    rewrite app_nil_r, <- !app_assoc. reflexivity. }
  rewrite Hreads. split; [|split].
  - intros Hop.
    destruct (message_frame_step h first (BinaryMessage (Stream.payload first) false)
                b0 b (flat_map (reads b0 b) middle ++ (reads b0 b last ++ rest)) n R Hp)
      as (n1 & h1 & L1 & R1 & P1 & S1 & C1 & M1).
    { rewrite (dispatch_binary first _ Hop), Hfin. reflexivity. }
    simpl in C1, M1. rewrite app_nil_r in C1.
    destruct (binary_fragments_loop b0 b (reads b0 b last ++ rest) middle
                h1 (Stream.payload first) n1 R1 P1 M1 Hmid)
      as (n2 & h2 & L2 & R2 & P2 & S2 & C2 & M2).
    destruct (message_frame_step h2 last
                (BinaryMessage
                   ((Stream.payload first ++ concat (map Stream.payload middle))
                    ++ Stream.payload last) true)
                b0 b rest n2 R2 P2)
      as (n3 & h3 & L3 & R3 & P3 & S3 & C3 & M3).
    { rewrite (dispatch_continuation_binary last _ _ _ Hlop M2), Hlfin. reflexivity. }
    simpl in C3, M3.
    exists n3, h3. rewrite L1, L2, L3. repeat split; try congruence.
    rewrite C3, C2, C1. do 3 f_equal.
    simpl. rewrite map_app, concat_app. simpl. rewrite app_nil_r, app_assoc.
    reflexivity.
  - intros Hop Hs chunks Hd.
    simpl in Hd.
    destruct (decode_utf8 (Stream.payload first)) as [u|] eqn:Eu; [|discriminate].
    destruct (decode_all (map Stream.payload (middle ++ [last]))) as [us|] eqn:Eus;
      [|discriminate].
    injection Hd as <-.
    rewrite map_app in Eus.
    destruct (decode_all_app _ _ _ Eus) as (cm & cl & Hcm & Hcl & ->).
    simpl in Hcl.
    destruct (decode_utf8 (Stream.payload last)) as [ul|] eqn:Eul; [|discriminate].
    injection Hcl as <-.
    destruct (message_frame_step h first (TextMessage u false)
                b0 b (flat_map (reads b0 b) middle ++ (reads b0 b last ++ rest)) n R Hp)
      as (n1 & h1 & L1 & R1 & P1 & S1 & C1 & M1).
    { rewrite (dispatch_text first _ Hop Hs), Eu, Hfin. reflexivity. }
    simpl in C1, M1. rewrite app_nil_r in C1.
    destruct (text_fragments_loop b0 b (reads b0 b last ++ rest) middle
                h1 u cm n1 R1 P1 M1 Hmid Hcm)
      as (n2 & h2 & L2 & R2 & P2 & S2 & C2 & M2).
    destruct (message_frame_step h2 last
                (TextMessage ((u ++ concat cm) ++ ul) true) b0 b rest n2 R2 P2)
      as (n3 & h3 & L3 & R3 & P3 & S3 & C3 & M3).
    { rewrite (dispatch_continuation_text last _ _ _ Hlop M2), Eul, Hlfin. reflexivity. }
    simpl in C3, M3.
    exists n3, h3. rewrite L1, L2, L3. repeat split; try congruence.
    rewrite C3, C2, C1. do 3 f_equal.
    simpl. rewrite concat_app. simpl. rewrite app_nil_r, app_assoc.
    reflexivity.
  - intros c0 c k m h0 script R0 P0.
    apply loop_goes_on; [apply running_not_terminated; exact R0|].
    apply partial_read_step; assumption.
Qed.

(** X10. A message that comes in one frame (fin=1) reaches the application
    in the turn that reads it: on a running handler the loop goes on after
    the frame, has written nothing, has called [received_message] once,
    with the completed message, and has cleared the slot. A binary frame
    is delivered with its payload as it is, whatever the slot held; a text
    frame that arrives while no incomplete message is in progress is
    delivered with its payload decoded. *)
Theorem single_frame_message_delivered
  (h : t) (f : Frame) (b0 : byte) (b : bytes) (rest : list Recv) (n : Z) :
  Running h ->
  Stream.parser (stream h) = Stream.AtRead ->
  fin f = 1 ->
  (opcode f = OPCODE_BINARY ->
   exists n' h',
     loop (reads b0 b f ++ rest) n h = loop rest n' h'
     /\ Running h'
     /\ sent (sock h') = sent (sock h)
     /\ calls h' = calls h ++ [ReceivedMessage (BinaryMessage (Stream.payload f) true)]
     /\ Stream.message (stream h') = None)
  /\
  (opcode f = OPCODE_TEXT ->
   Stream.incomplete (stream h) = false ->
   forall text, decode_utf8 (Stream.payload f) = Some text ->
   exists n' h',
     loop (reads b0 b f ++ rest) n h = loop rest n' h'
     /\ Running h'
     /\ sent (sock h') = sent (sock h)
     /\ calls h' = calls h ++ [ReceivedMessage (TextMessage text true)]
     /\ Stream.message (stream h') = None).
Proof.
  intros R Hp Hfin. split.
  - intros Hop.
    destruct (message_frame_step h f (BinaryMessage (Stream.payload f) true)
                b0 b rest n R Hp)
      as (n1 & h1 & L1 & R1 & P1 & S1 & C1 & M1).
    { rewrite (dispatch_binary f _ Hop), Hfin. reflexivity. }
    exists n1, h1. auto.
  - intros Hop Hs text Hd.
    destruct (message_frame_step h f (TextMessage text true) b0 b rest n R Hp)
      as (n1 & h1 & L1 & R1 & P1 & S1 & C1 & M1).
    { rewrite (dispatch_text f _ Hop Hs), Hd, Hfin. reflexivity. }
    exists n1, h1. auto.
Qed.

(** X11. A failure of the frame decoder ends the connection in the turn it
    occurs in: on a running handler the loop is left at once, with no
    callback made and nothing written. A [ProtocolException] has put the
    record 1002 at the head of the error queue and a
    [FrameTooLargeException] the record 1004, before the frame is
    dispatched as it stands; [StreamClosed] makes the generator return, so
    that the driver's [send] raises [StopIteration]; any other exception
    leaves the generator as it is raised; in both these cases the queues
    of the stream are untouched and every later [send] raises
    [StopIteration]. *)
Theorem decoder_failure_ends_connection
  (h : t) (e : Exn) (f : Frame) (b0 : byte) (b : bytes) (rest : list Recv) (n : Z) :
  Running h ->
  Stream.parser (stream h) = Stream.AtRead ->
  e <> StopIteration ->
  (exists x h',
     loop (Data (b0 :: b) (Failed e f) :: rest) n h = Some (x, h')
     /\ calls h' = calls h
     /\ sent (sock h') = sent (sock h))
  /\
  match e with
  | ProtocolException =>
    hd_error (Stream.errors (snd (Stream.receiver (Failed e f) (stream h))))
    = Some (close_with_code 1002)
  | FrameTooLargeException =>
    hd_error (Stream.errors (snd (Stream.receiver (Failed e f) (stream h))))
    = Some (close_with_code 1004)
  | _ =>
    Stream.receiver (Failed e f) (stream h)
    = (inr (match e with StreamClosed => StopIteration | _ => e end),
       Stream.set_parser Stream.Finished (stream h))
    /\ forall d,
         Stream.receiver d (Stream.set_parser Stream.Finished (stream h))
         = (inr StopIteration, Stream.set_parser Stream.Finished (stream h))
  end.
Proof.
  intros R Hp He.
  pose proof (running_not_terminated h R) as Ht.
  destruct (running_quiet h R) as (_ & Q2 & _).
  assert (V : forall c,
            Stream.receiver (Failed e f) (stream h)
            = (let (n1, s') :=
                 Stream.finish f (Stream.dispatch f (Stream.add_error c (stream h)))
               in (inl n1, s')) ->
            (exists x h',
               loop (Data (b0 :: b) (Failed e f) :: rest) n h = Some (x, h')
               /\ calls h' = calls h /\ sent (sock h') = sent (sock h))
            /\ hd_error (Stream.errors (snd (Stream.receiver (Failed e f) (stream h))))
               = Some (close_with_code c)).
  { intros c Hr.
    pose (x := Stream.dispatch f (Stream.add_error c (stream h))).
    fold x in Hr.
    destruct (finish_stream f x) as (_ & _ & _ & _ & F5).
    destruct (dispatch_errors f (Stream.add_error c (stream h))) as (new & E & _).
    fold x in E. rewrite E in F5. simpl in F5. rewrite Q2 in F5. simpl in F5.
    destruct (Stream.finish f x) as [n1 s1] eqn:Ef. simpl in F5, Hr.
    split; [|rewrite Hr; simpl; rewrite F5; reflexivity].
    destruct (inspect_leaves n1 (set_stream s1 h)) as (y & h' & I & N & C & K & _).
    { right. simpl. rewrite F5. discriminate. }
    destruct (loop_left (Data (b0 :: b) (Failed e f)) rest n h h' y Ht) as [z L];
      [|exact N|].
    { unfold turn, bind, parser_send. simpl. rewrite Hr. exact I. }
    exists z, h'. rewrite L, C, K. auto. }
  assert (U : forall e',
            Stream.receiver (Failed e f) (stream h)
            = (inr e', Stream.set_parser Stream.Finished (stream h)) ->
            (exists x h',
               loop (Data (b0 :: b) (Failed e f) :: rest) n h = Some (x, h')
               /\ calls h' = calls h /\ sent (sock h') = sent (sock h))
            /\ Stream.receiver (Failed e f) (stream h)
               = (inr e', Stream.set_parser Stream.Finished (stream h))
            /\ forall d,
                 Stream.receiver d (Stream.set_parser Stream.Finished (stream h))
                 = (inr StopIteration, Stream.set_parser Stream.Finished (stream h))).
  { intros e' Hr. split; [|split; [exact Hr|reflexivity]].
    do 2 eexists. simpl. rewrite Ht.
    unfold bind, parser_send. rewrite Hr. split; [reflexivity|auto]. }
  destruct e;
    try (apply (V 1002); unfold Stream.receiver; rewrite Hp; reflexivity);
    try (apply (V 1004); unfold Stream.receiver; rewrite Hp; reflexivity);
    try (eapply U; unfold Stream.receiver; rewrite Hp; reflexivity).
  exfalso. apply He. reflexivity.
Qed.

Lemma receiver_suspended (d : Decode) (s s1 : Stream.t) (n : Z) :
  Stream.receiver d s = (inl n, s1) -> Stream.parser s1 <> Stream.Finished.
Proof.
  unfold Stream.receiver.
  assert (F : forall f x n s1,
            (let (n0, s') := Stream.finish f x in (@inl Z Exn n0, s')) = (inl n, s1) ->
            Stream.parser s1 <> Stream.Finished).
  { intros f x n0 s0. unfold Stream.finish.
    destruct x as [s2|s2]; [|destruct (truthy (Stream.payload f))];
      intros H; injection H as _ <-; discriminate. }
  destruct (Stream.parser s) eqn:Hp.
  - destruct d as [m|f|e f].
    + intros H. injection H as _ <-. rewrite Hp. discriminate.
    + apply F.
    + destruct e; try (apply F); discriminate.
  - intros H. injection H as _ <-. discriminate.
  - discriminate.
Qed.

Lemma turn_goes_on_fed (r : Recv) (n m : Z) (h h' : t) :
  turn r n h = (inl (Next m), h') ->
  exists d n1 s1,
    Stream.receiver d (stream h) = (inl n1, s1)
    /\ h' = drained (surfaced (set_stream s1 h)).
Proof.
  intros T.
  destruct r as [b d|]; [|discriminate]. unfold turn in T.
  destruct (negb (truthy b) && (n >? 0)); [discriminate|].
  unfold bind, parser_send in T.
  destruct (Stream.receiver d (stream h)) as [[n1|e] s2] eqn:Er; [|discriminate].
  exists d, n1, s2. split; [exact Er|].
  destruct (Stream.closing s2) as [c|] eqn:Hc2.
  - destruct (server_terminated h) eqn:Hs.
    + rewrite (inspect_closing_second n1 (set_stream s2 h) c Hc2 Hs) in T. discriminate.
    + rewrite (inspect_closing_first n1 (set_stream s2 h) c Hc2 Hs) in T. discriminate.
  - destruct (Stream.errors s2) as [|e l] eqn:He2.
    + rewrite (inspect_quiet n1 (set_stream s2 h) Hc2 He2) in T.
      injection T as _ <-. reflexivity.
    + assert (Hne : Stream.errors (stream (set_stream s2 h)) <> []).
      { simpl. rewrite He2. discriminate. }
      destruct (server_terminated h) eqn:Hs.
      * rewrite (inspect_errors_closed n1 (set_stream s2 h) Hc2 Hne Hs) in T. discriminate.
      * rewrite (inspect_errors_first n1 (set_stream s2 h) Hc2 Hne Hs) in T. discriminate.
Qed.

(** X14. The loop carries nothing over from one turn to the next. A
    handler that the loop goes on with holds no close message, no queued
    error, no queued ping or pong and no complete message; what is in the
    message slot, if anything, is a message still in progress;
    client-terminated is unset; and the receiver is suspended, not
    finished. Every close message, error, ping, pong and complete message
    is dealt with in the turn it arrives in. *)
Theorem running_handler_carries_nothing_over (h : t) :
  Running h ->
  Stream.closing (stream h) = None
  /\ Stream.errors (stream h) = []
  /\ Stream.pings (stream h) = []
  /\ Stream.pongs (stream h) = []
  /\ Stream.has_message (stream h) = false
  /\ (forall m, Stream.message (stream h) = Some m -> message_completed m = false)
  /\ client_terminated h = false
  /\ Stream.parser (stream h) <> Stream.Finished.
Proof.
  intros R.
  destruct (running_quiet h R) as (Q1 & Q2 & Q3 & Q4 & Q5).
  repeat split; auto.
  - intros m Hm. unfold Stream.has_message in Q5. rewrite Hm in Q5. exact Q5.
  - apply running_flags. exact R.
  - clear Q1 Q2 Q3 Q4 Q5.
    induction R as [fails | c r h R IH | r n m h h' R IH T].
    + discriminate.
    + destruct (server_terminated h) eqn:Hs.
      * rewrite (close_again c r h Hs). exact IH.
      * rewrite (close_first c r h Hs). exact IH.
    + destruct (turn_goes_on_fed r n m h h' T) as (d & n1 & s1 & Er & ->).
      rewrite drained_surfaced_parser. simpl.
      exact (receiver_suspended d (stream h) s1 n1 Er).
Qed.

End DriverInvariants.

(** * Properties of [send] *)

Section Sending.

Import Send.

Lemma fragments_shape (binary : bool) (rest : list bytes) :
  forall (held : bytes) (first : bool),
  map written_data (fragments binary held first rest) = map Some (held :: rest)
  /\ map passes_last (fragments binary held first rest)
     = repeat false (length rest) ++ [true]
  /\ map passes_first (fragments binary held first rest)
     = match rest with
       | [] => [false]
       | _ :: _ => first :: repeat false (length rest)
       end.
Proof.
  induction rest as [|c rest IH]; intros held first; [repeat split|].
  destruct (IH c false) as (D & L & F).
  simpl fragments. simpl map. rewrite D, L, F.
  split; [reflexivity|]. split; [reflexivity|].
  destruct first; destruct rest; reflexivity.
Qed.

(** X12. [send] with a generator that yields the chunks [c1 .. cn], n at
    least one, returns normally after n writes, one fragment per chunk in
    order, all built by the sender that [binary] selects. [last=True] is
    passed with the n-th fragment and with no other. [first=True] is passed
    with the first fragment when there are two chunks or more; the only
    fragment of a one-chunk generator is written with [last=True] and
    without [first]. A generator that yields nothing makes [send] raise
    [StopIteration] before it writes. *)
Theorem send_generator_fragments (binary : bool) (c : bytes) (rest : list bytes) :
  let ws := snd (send (Generator (c :: rest)) binary) in
  fst (send (Generator (c :: rest)) binary) = inl tt
  /\ map written_data ws = map Some (c :: rest)
  /\ map passes_last ws = repeat false (length rest) ++ [true]
  /\ map passes_first ws
     = match rest with
       | [] => [false]
       | _ :: _ => true :: repeat false (length rest)
       end
  /\ Forall (fun w => exists d fi la, w = Fragment binary d fi la) ws
  /\ send (Generator []) binary = (inr StopIteration, []).
Proof.
  simpl. destruct (fragments_shape binary rest c true) as (D & L & F).
  repeat split; auto.
  clear D L F. generalize true. revert c.
  induction rest as [|c' rest IH]; intros c first; simpl.
  - constructor; [do 3 eexists; reflexivity|constructor].
  - constructor; [do 3 eexists; reflexivity|apply IH].
Qed.

End Sending.

(** * The further properties at sample inputs, with the RFC 3629 codec *)

(** X5, at a ping "a" followed by a failing read. *)
Lemma receive_writes_only_pongs_witness :
  exists h',
    _receive [Sample.read Sample.ping_a; RecvError] (init false) = Some h'
    /\ sent (sock h') = [PongFrame ["a"%byte]]
    /\ exists ds, sent (sock h') = sent (sock (init false)) ++ map PongFrame ds.
Proof.
  eexists. split; [reflexivity|]. split; [reflexivity|].
  exact (receive_writes_only_pongs (codec := rfc3629)
           [Sample.read Sample.ping_a; RecvError] (init false) _ eq_refl).
Defined.

(** X6, at a failing read on a handler whose [shutdown] raises. *)
Lemma socket_closed_only_if_shutdown_succeeds_witness :
  exists h',
    _receive [RecvError] (init true) = Some h'
    /\ is_shutdown (sock h') = false
    /\ is_closed (sock h') = false.
Proof.
  eexists. split; [reflexivity|].
  exact (socket_closed_only_if_shutdown_succeeds (codec := rfc3629)
           [RecvError] (init true) _ eq_refl).
Defined.

(** X7, at a handler whose first read has failed. *)
Lemma close_after_receive_is_void_witness :
  exists h',
    _receive [RecvError] (init false) = Some h'
    /\ close 1001 [] h' = (inl tt, h').
Proof.
  eexists. split; [reflexivity|].
  exact (close_after_receive_is_void (codec := rfc3629)
           [RecvError] (init false) _ 1001 [] eq_refl).
Defined.

(** X8, at the handler that has just answered a ping without payload. *)
Lemma empty_read_ends_loop_unless_aligning_witness :
  (Running MoreSamples.after_empty_ping
   /\ Stream.parser (stream MoreSamples.after_empty_ping) = Stream.AtAlign)
  /\ loop [Data [] (NeedBytes 2); RecvError] 2 MoreSamples.after_empty_ping
     = Some (inl tt, MoreSamples.after_empty_ping)
  /\ loop [Data [] (NeedBytes 2); RecvError] 0 MoreSamples.after_empty_ping
     = loop [RecvError] FIRST_REQUEST
         (set_stream
            (Stream.set_parser Stream.AtRead (stream MoreSamples.after_empty_ping))
            MoreSamples.after_empty_ping).
Proof.
  assert (R : Running MoreSamples.after_empty_ping).
  { exact (Running_turn (Sample.read MoreSamples.empty_ping) 2 0 (init false) _
             (Running_init false) eq_refl). }
  destruct (empty_read_ends_loop_unless_aligning (codec := rfc3629)
              MoreSamples.after_empty_ping (NeedBytes 2) [RecvError] R) as [A B].
  split; [split; [exact R|reflexivity]|].
  split; [apply A; lia|apply B; reflexivity].
Defined.

(** X9, at the binary fragments 01, 02, 03 and at the text fragments
    "Hel", "l", "o", read by a fresh handler. *)
Lemma fragmented_message_delivered_once_witness :
  (Running (init false)
   /\ Stream.parser (stream (init false)) = Stream.AtRead
   /\ fin Sample.bin_1 = 0
   /\ Forall nonfinal_continuation [Sample.bin_2]
   /\ final_continuation Sample.bin_3
   /\ opcode Sample.bin_1 = OPCODE_BINARY)
  /\ (exists n' h',
        loop (flat_map (reads x00 []) [Sample.bin_1; Sample.bin_2; Sample.bin_3]
              ++ [RecvError]) 2 (init false)
        = loop [RecvError] n' h'
        /\ sent (sock h') = []
        /\ calls h' = [ReceivedMessage (BinaryMessage [x01; x02; x03] true)]
        /\ Stream.message (stream h') = None)
  /\ (exists n' h',
        loop (flat_map (reads x00 []) [Sample.hel; Sample.l_; Sample.o_]
              ++ [RecvError]) 2 (init false)
        = loop [RecvError] n' h'
        /\ sent (sock h') = []
        /\ calls h' = [ReceivedMessage (TextMessage [72; 101; 108; 108; 111]%N true)]
        /\ Stream.message (stream h') = None)
  /\ loop [Data [x82; x01] (NeedBytes 1); RecvError] 2 (init false)
     = loop [RecvError] 1 (init false).
Proof.
  assert (Hb : Forall nonfinal_continuation [Sample.bin_2]).
  { constructor; [split; reflexivity|constructor]. }
  assert (Hm : Forall nonfinal_continuation [Sample.l_]).
  { constructor; [split; reflexivity|constructor]. }
  assert (H3 : final_continuation Sample.bin_3) by (split; reflexivity).
  assert (Ho : final_continuation Sample.o_) by (split; reflexivity).
  destruct (fragmented_message_delivered_once (codec := rfc3629) (init false)
              Sample.bin_1 [Sample.bin_2] Sample.bin_3 x00 [] [RecvError] 2
              (Running_init false) eq_refl eq_refl Hb H3) as [B _].
  destruct (B eq_refl) as (n1 & h1 & L1 & _ & S1 & C1 & M1).
  destruct (fragmented_message_delivered_once (codec := rfc3629) (init false)
              Sample.hel [Sample.l_] Sample.o_ x00 [] [RecvError] 2
              (Running_init false) eq_refl eq_refl Hm Ho) as (_ & T & N).
  destruct (T eq_refl eq_refl _ eq_refl) as (n2 & h2 & L2 & _ & S2 & C2 & M2).
  split; [repeat split; try assumption; apply Running_init|].
  split; [exists n1, h1; repeat split; assumption|].
  split; [exists n2, h2; repeat split; assumption|].
  exact (N x82 [x01] 1 2 (init false) [RecvError] (Running_init false) eq_refl).
Defined.

(** X10, at the binary frame 01 02 and at the text frame "Hello", read by
    a fresh handler. *)
Lemma single_frame_message_delivered_witness :
  (Running (init false)
   /\ Stream.parser (stream (init false)) = Stream.AtRead
   /\ fin Sample.blob = 1 /\ opcode Sample.blob = OPCODE_BINARY
   /\ fin MoreSamples.hello = 1 /\ opcode MoreSamples.hello = OPCODE_TEXT
   /\ Stream.incomplete (stream (init false)) = false
   /\ decode_utf8 (Stream.payload MoreSamples.hello)
      = Some [72; 101; 108; 108; 111]%N)
  /\ (exists n' h',
        loop (reads x00 [] Sample.blob ++ [RecvError]) 2 (init false)
        = loop [RecvError] n' h'
        /\ sent (sock h') = []
        /\ calls h' = [ReceivedMessage (BinaryMessage [x01; x02] true)]
        /\ Stream.message (stream h') = None)
  /\ (exists n' h',
        loop (reads x00 [] MoreSamples.hello ++ [RecvError]) 2 (init false)
        = loop [RecvError] n' h'
        /\ sent (sock h') = []
        /\ calls h' = [ReceivedMessage (TextMessage [72; 101; 108; 108; 111]%N true)]
        /\ Stream.message (stream h') = None).
Proof.
  destruct (single_frame_message_delivered (codec := rfc3629) (init false)
              Sample.blob x00 [] [RecvError] 2 (Running_init false) eq_refl eq_refl)
    as [B _].
  destruct (B eq_refl) as (n1 & h1 & L1 & _ & S1 & C1 & M1).
  destruct (single_frame_message_delivered (codec := rfc3629) (init false)
              MoreSamples.hello x00 [] [RecvError] 2 (Running_init false)
              eq_refl eq_refl)
    as [_ T].
  destruct (T eq_refl eq_refl _ eq_refl) as (n2 & h2 & L2 & _ & S2 & C2 & M2).
  split; [repeat split; apply Running_init|].
  split; [exists n1, h1|exists n2, h2]; repeat split; assumption.
Defined.

(** X11, at a fragmented ping, on which the decoder raises
    [ProtocolException] with the opcode already read: 1002 is queued, the
    ping is queued behind it and never answered. *)
Lemma decoder_failure_ends_connection_witness :
  (Running (init false)
   /\ Stream.parser (stream (init false)) = Stream.AtRead
   /\ ProtocolException <> StopIteration)
  /\ (exists x h',
        loop [Data [x09; x00] (Failed ProtocolException MoreSamples.fragmented_ping);
              RecvError] 2 (init false)
        = Some (x, h')
        /\ calls h' = []
        /\ sent (sock h') = [])
  /\ hd_error
       (Stream.errors
          (snd (Stream.receiver (Failed ProtocolException MoreSamples.fragmented_ping)
                  (stream (init false)))))
     = Some (close_with_code 1002)
  /\ Stream.pings
       (snd (Stream.receiver (Failed ProtocolException MoreSamples.fragmented_ping)
               (stream (init false))))
     = [mkPing []].
Proof.
  assert (N : ProtocolException <> StopIteration) by discriminate.
  destruct (decoder_failure_ends_connection (codec := rfc3629) (init false)
              ProtocolException MoreSamples.fragmented_ping x09 [x00] [RecvError] 2
              (Running_init false) eq_refl N) as [L Q].
  split; [repeat split; [apply Running_init|exact N]|].
  split; [exact L|]. split; [exact Q|reflexivity].
Defined.

(** X14, at the handler that has read the fragment "Hel": the message in
    progress is all it carries. *)
Lemma running_handler_carries_nothing_over_witness :
  Running MoreSamples.after_hel
  /\ Stream.message (stream MoreSamples.after_hel)
     = Some (TextMessage [72; 101; 108]%N false)
  /\ Stream.closing (stream MoreSamples.after_hel) = None
  /\ Stream.errors (stream MoreSamples.after_hel) = []
  /\ Stream.pings (stream MoreSamples.after_hel) = []
  /\ Stream.pongs (stream MoreSamples.after_hel) = []
  /\ Stream.has_message (stream MoreSamples.after_hel) = false
  /\ client_terminated MoreSamples.after_hel = false
  /\ Stream.parser (stream MoreSamples.after_hel) <> Stream.Finished.
Proof.
  assert (R : Running MoreSamples.after_hel).
  { exact (Running_turn (Sample.read Sample.hel) 2 FIRST_REQUEST (init false) _
             (Running_init false) eq_refl). }
  destruct (running_handler_carries_nothing_over (codec := rfc3629)
              MoreSamples.after_hel R) as (Q1 & Q2 & Q3 & Q4 & Q5 & _ & Q7 & Q8).
  split; [exact R|]. split; [reflexivity|]. repeat split; assumption.
Defined.
